(** * ezb2: a typed wrapper for the Backblaze B2 HTTP API

    Shallow embedding of [src/util.ts], [src/b2.ts] and [src/b2-bucket.ts].

    - [Js]: the JavaScript data the code manipulates: strings as sequences of
      UTF-16 code units, numbers as binary64 floats, Buffers as byte lists,
      exceptions as a result type, objects, and the built-ins the code calls
      ([split], [join], [encodeURIComponent], base64 of a Buffer).
    - [Util]: [getUrlEncodedFilename] and [sha1].
    - [Axios]: the calls the client hands to the HTTP transport, the server
      as an oracle, and the monad the methods run in.
    - [B2]: the session client; [B2Bucket]: the bucket-scoped facade.
    - [Spec]: the properties in the specification's words; [Fixtures]:
      concrete servers and inputs.
    - Proofs: the filename encoding and its inverse, the requests of the
      uploads, calls before [authorize], the facade's [authorize]. *)

From Stdlib Require Import ZArith List Bool Lia Floats.
From Stdlib.Strings Require Import String Ascii Byte.
Import ListNotations.

Local Open Scope Z_scope.

(* ================================================================== *)
(** * JavaScript values *)
(* ================================================================== *)

Module Js.

(** A JavaScript string is a finite sequence of 16-bit code units. *)
Definition jsstring := list Z.

Definition code_unit (c : Z) : Prop := 0 <= c < 65536.
Definition js_string (s : jsstring) : Prop := Forall code_unit s.

(** String literals of the source, written in ASCII. *)
Definition lit (s : string) : jsstring :=
  map (fun a => Z.of_N (N_of_ascii a)) (list_ascii_of_string s).

Fixpoint eqb (s t : jsstring) : bool :=
  match s, t with
  | [], [] => true
  | c :: s', d :: t' => (c =? d) && eqb s' t'
  | _, _ => false
  end.

(** A JavaScript number is an IEEE 754 binary64 value. *)
Definition number := float.

Definition number_of_nat (n : nat) : number :=
  PrimFloat.of_uint63 (Uint63.of_Z (Z.of_nat n)).

(** A Node Buffer is a sequence of bytes. *)
Definition Buffer := list byte.

Definition octet (b : byte) : Z := Z.of_N (Byte.to_N b).

(** Exceptions that the code or the built-ins it calls can raise. *)
Inductive Exn :=
| TypeError (msg : jsstring)     (* property access on undefined *)
| URIError                       (* encodeURIComponent / decodeURIComponent *)
| Error (msg : jsstring)         (* new Error(msg) *)
| TransportError (status : Z).   (* the transport's rejection, passed through *)

Inductive Result (A : Type) :=
| Ok (a : A)
| Throw (e : Exn).
Arguments Ok {A} a.
Arguments Throw {A} e.

Definition bind {A B} (r : Result A) (k : A -> Result B) : Result B :=
  match r with
  | Ok a => k a
  | Throw e => Throw e
  end.

Definition fmap {A B} (f : A -> B) (r : Result A) : Result B :=
  bind r (fun a => Ok (f a)).

(** [Array.prototype.map] with a callback that may throw: the first
    exception, in index order, aborts the whole map. *)
Fixpoint mapM {A B} (f : A -> Result B) (l : list A) : Result (list B) :=
  match l with
  | [] => Ok []
  | x :: l' => bind (f x) (fun y => fmap (cons y) (mapM f l'))
  end.

(** Truthiness of a string: only the empty string is falsy. *)
Definition truthy (s : jsstring) : bool :=
  match s with [] => false | _ => true end.

(** A field of a JSON answer that is typed as a string: it may hold a
    string or [null], or be missing ([undefined] when read). *)
Inductive Field :=
| Missing
| Null
| Str (s : jsstring).

Definition truthy_field (f : Field) : bool :=
  match f with
  | Str s => truthy s
  | _ => false
  end.

(** [a || b] on an optional string with a string default. *)
Definition or_else (o : option jsstring) (d : jsstring) : jsstring :=
  match o with
  | Some s => if truthy s then s else d
  | None => d
  end.

(** ** [String.prototype.split] with a one-unit separator, and
       [Array.prototype.join] *)

Fixpoint split (sep : Z) (s : jsstring) : list jsstring :=
  match s with
  | [] => [[]]
  | c :: s' =>
      if c =? sep then [] :: split sep s'
      else match split sep s' with
           | seg :: segs => (c :: seg) :: segs
           | [] => [[c]]
           end
  end.

Fixpoint join (sep : Z) (l : list jsstring) : jsstring :=
  match l with
  | [] => []
  | [x] => x
  | x :: l' => x ++ sep :: join sep l'
  end.

(** ** [encodeURIComponent] (ECMA-262, abstract operation Encode) *)

(** The characters left alone: ASCII letters and digits and [-_.!~*'()]. *)
Definition unescaped (c : Z) : bool :=
  ((65 <=? c) && (c <=? 90)) || ((97 <=? c) && (c <=? 122))
  || ((48 <=? c) && (c <=? 57))
  || (c =? 45) || (c =? 95) || (c =? 46) || (c =? 33) || (c =? 126)
  || (c =? 42) || (c =? 39) || (c =? 40) || (c =? 41).

Definition is_lead (c : Z) : bool := (55296 <=? c) && (c <=? 56319).
Definition is_trail (c : Z) : bool := (56320 <=? c) && (c <=? 57343).
Definition is_surrogate (c : Z) : bool := (55296 <=? c) && (c <=? 57343).

(** The code point of a surrogate pair. *)
Definition pair_code_point (hi lo : Z) : Z :=
  (hi - 55296) * 1024 + (lo - 56320) + 65536.

(** UTF-8 octets of a code point. *)
Definition utf8 (cp : Z) : list Z :=
  if cp <? 128 then [cp]
  else if cp <? 2048 then [192 + cp / 64; 128 + cp mod 64]
  else if cp <? 65536 then
    [224 + cp / 4096; 128 + (cp / 64) mod 64; 128 + cp mod 64]
  else
    [240 + cp / 262144; 128 + (cp / 4096) mod 64;
     128 + (cp / 64) mod 64; 128 + cp mod 64].

(** One upper-case hexadecimal digit, as a code unit. *)
Definition hex_upper (d : Z) : Z := if d <? 10 then 48 + d else 55 + d.

(** ["%XY"] for an octet. *)
Definition escape_octet (b : Z) : jsstring :=
  [37; hex_upper (b / 16); hex_upper (b mod 16)].

Definition escape (octets : list Z) : jsstring :=
  flat_map escape_octet octets.

Fixpoint encodeURIComponent (s : jsstring) : Result jsstring :=
  match s with
  | [] => Ok []
  | c :: s' =>
      if unescaped c then fmap (cons c) (encodeURIComponent s')
      else if is_trail c then Throw URIError
      else if is_lead c then
        match s' with
        | d :: s'' =>
            if is_trail d then
              fmap (app (escape (utf8 (pair_code_point c d))))
                   (encodeURIComponent s'')
            else Throw URIError
        | [] => Throw URIError
        end
      else fmap (app (escape (utf8 c))) (encodeURIComponent s')
  end.

(** ** Percent-decoding ([decodeURIComponent], ECMA-262 Decode)

    The escapes ["%XY"] are turned back into octets, and every run of octets
    must be the UTF-8 encoding of one code point, which is emitted as UTF-16.
    Anything else is a [URIError]. *)

Definition hex_value (c : Z) : option Z :=
  if (48 <=? c) && (c <=? 57) then Some (c - 48)
  else if (65 <=? c) && (c <=? 70) then Some (c - 55)
  else if (97 <=? c) && (c <=? 102) then Some (c - 87)
  else None.

Inductive item :=
| Unit (c : Z)     (* a code unit that stands for itself *)
| Octet (b : Z).   (* an octet written as "%XY" *)

Fixpoint unescape (s : jsstring) : Result (list item) :=
  match s with
  | [] => Ok []
  | c :: s' =>
      if c =? 37 then
        match s' with
        | h :: l :: s'' =>
            match hex_value h, hex_value l with
            | Some x, Some y => fmap (cons (Octet (16 * x + y))) (unescape s'')
            | _, _ => Throw URIError
            end
        | _ => Throw URIError
        end
      else fmap (cons (Unit c)) (unescape s')
  end.

Definition continuation (b : Z) : bool := (128 <=? b) && (b <? 192).

Definition utf16 (cp : Z) : jsstring :=
  if cp <? 65536 then [cp]
  else [55296 + (cp - 65536) / 1024; 56320 + (cp - 65536) mod 1024].

Fixpoint assemble (l : list item) : Result jsstring :=
  match l with
  | [] => Ok []
  | Unit c :: l' => fmap (cons c) (assemble l')
  | Octet b :: l' =>
      if b <? 128 then fmap (cons b) (assemble l')
      else if b <? 192 then Throw URIError
      else if b <? 224 then
        match l' with
        | Octet b1 :: l'' =>
            let cp := (b - 192) * 64 + (b1 - 128) in
            if continuation b1 && (128 <=? cp)
            then fmap (app (utf16 cp)) (assemble l'')
            else Throw URIError
        | _ => Throw URIError
        end
      else if b <? 240 then
        match l' with
        | Octet b1 :: Octet b2 :: l'' =>
            let cp := ((b - 224) * 64 + (b1 - 128)) * 64 + (b2 - 128) in
            if continuation b1 && continuation b2 && (2048 <=? cp)
               && negb (is_surrogate cp)
            then fmap (app (utf16 cp)) (assemble l'')
            else Throw URIError
        | _ => Throw URIError
        end
      else if b <? 248 then
        match l' with
        | Octet b1 :: Octet b2 :: Octet b3 :: l'' =>
            let cp := (((b - 240) * 64 + (b1 - 128)) * 64 + (b2 - 128)) * 64
                      + (b3 - 128) in
            if continuation b1 && continuation b2 && continuation b3
               && (65536 <=? cp) && (cp <=? 1114111)
            then fmap (app (utf16 cp)) (assemble l'')
            else Throw URIError
        | _ => Throw URIError
        end
      else Throw URIError
  end.

Definition decodeURIComponent (s : jsstring) : Result jsstring :=
  bind (unescape s) assemble.

(** ** Strings as bytes: [new Buffer(str)] and [hash.update(str)]

    Node encodes the string as UTF-8; a surrogate that is not part of a pair
    becomes U+FFFD. *)

Fixpoint utf8_bytes (s : jsstring) : list Z :=
  match s with
  | [] => []
  | c :: s' =>
      if is_lead c then
        match s' with
        | d :: s'' =>
            if is_trail d then utf8 (pair_code_point c d) ++ utf8_bytes s''
            else utf8 65533 ++ utf8_bytes s'
        | [] => utf8 65533
        end
      else if is_trail c then utf8 65533 ++ utf8_bytes s'
      else utf8 c ++ utf8_bytes s'
  end.

(** ** [buffer.toString("base64")] *)

Definition base64_digit (d : Z) : Z :=
  if d <? 26 then 65 + d
  else if d <? 52 then 71 + d
  else if d <? 62 then d - 4
  else if d =? 62 then 43
  else 47.

Fixpoint base64 (bs : list Z) : jsstring :=
  match bs with
  | [] => []
  | [a] => [base64_digit (a / 4); base64_digit ((a mod 4) * 16); 61; 61]
  | [a; b] =>
      [base64_digit (a / 4); base64_digit ((a mod 4) * 16 + b / 16);
       base64_digit ((b mod 16) * 4); 61]
  | a :: b :: c :: bs' =>
      base64_digit (a / 4) :: base64_digit ((a mod 4) * 16 + b / 16)
      :: base64_digit ((b mod 16) * 4 + c / 64) :: base64_digit (c mod 64)
      :: base64 bs'
  end.

(** ** Objects

    The values that travel as JSON, and the object literals and spreads the
    code builds. Properties keep their insertion order. *)

#[local] Set Warnings "-register-all".

Inductive JsVal :=
| VUndefined
| VNull
| VBool (b : bool)
| VNum (n : number)
| VStr (s : jsstring)
| VArr (l : list JsVal)
| VObj (fields : list (jsstring * JsVal)).

Definition object := list (jsstring * JsVal).

Fixpoint get_prop (k : jsstring) (o : object) : JsVal :=
  match o with
  | [] => VUndefined
  | (k', v) :: o' => if eqb k k' then v else get_prop k o'
  end.

Fixpoint set_prop (k : jsstring) (v : JsVal) (o : object) : object :=
  match o with
  | [] => [(k, v)]
  | (k', v') :: o' =>
      if eqb k k' then (k, v) :: o' else (k', v') :: set_prop k v o'
  end.

(** [{ ...base, ...extra }] *)
Definition spread (base extra : object) : object :=
  fold_left (fun acc kv => set_prop (fst kv) (snd kv) acc) extra base.

(** A field of the client that may still be [undefined]. *)
Definition or_undefined (o : option jsstring) : JsVal :=
  match o with
  | Some s => VStr s
  | None => VUndefined
  end.

(** [`${x}`] for a string that may be [undefined]. *)
Definition show (o : option jsstring) : jsstring :=
  match o with
  | Some s => s
  | None => lit "undefined"
  end.

(** [a || b] on numbers: [0], [-0] and [NaN] are falsy. *)
Definition or_num (a b : number) : number :=
  if PrimFloat.is_zero a || PrimFloat.is_nan a then b else a.

(** [`${x}`] for a field of a JSON answer. *)
Definition show_field (f : Field) : jsstring :=
  match f with
  | Missing => lit "undefined"
  | Null => lit "null"
  | Str s => s
  end.

(** [a !== b] for a field of a JSON answer and a string. *)
Definition strict_neq (f : Field) (s : jsstring) : bool :=
  match f with
  | Str t => negb (eqb t s)
  | _ => true
  end.

End Js.

(* ================================================================== *)
(** * src/util.ts *)
(* ================================================================== *)

Module Util.
Import Js.

Definition slash : Z := 47.

(** [filename.split("/").map(encodeURIComponent).join("/")] *)
Definition getUrlEncodedFilename (filename : jsstring) : Result jsstring :=
  fmap (join slash) (mapM encodeURIComponent (split slash filename)).

(** ** [sha1]: [createHash("sha1")], [update(data)], [digest("hex")]

    SHA-1 as in FIPS 180-4, on 32-bit words held in [Z]. *)

Module Sha1.

Definition w32 (x : Z) : Z := x mod 4294967296.

Definition rotl (n x : Z) : Z :=
  w32 (Z.lor (Z.shiftl x n) (Z.shiftr x (32 - n))).

Definition not32 (x : Z) : Z := Z.lxor x 4294967295.

Definition f (t : nat) (b c d : Z) : Z :=
  if (t <? 20)%nat then Z.lor (Z.land b c) (Z.land (not32 b) d)
  else if (t <? 40)%nat then Z.lxor (Z.lxor b c) d
  else if (t <? 60)%nat then
    Z.lor (Z.lor (Z.land b c) (Z.land b d)) (Z.land c d)
  else Z.lxor (Z.lxor b c) d.

Definition K (t : nat) : Z :=
  if (t <? 20)%nat then 1518500249
  else if (t <? 40)%nat then 1859775393
  else if (t <? 60)%nat then 2400959708
  else 3395469782.

(** The length in bits, as eight big-endian octets. *)
Definition be64 (n : Z) : list Z :=
  map (fun i => (n / 256 ^ i) mod 256) [7; 6; 5; 4; 3; 2; 1; 0].

Definition pad (msg : list Z) : list Z :=
  let len := Z.of_nat (List.length msg) in
  msg ++ [128] ++ repeat 0 (Z.to_nat ((55 - len) mod 64)) ++ be64 (8 * len).

Fixpoint words (bs : list Z) : list Z :=
  match bs with
  | a :: b :: c :: d :: bs' =>
      (((a * 256 + b) * 256 + c) * 256 + d) :: words bs'
  | _ => []
  end.

(** The message schedule, most recent word first. *)
Fixpoint extend (n : nat) (wrev : list Z) : list Z :=
  match n with
  | O => wrev
  | S n' =>
      let w := Z.lxor (Z.lxor (nth 2 wrev 0) (nth 7 wrev 0))
                      (Z.lxor (nth 13 wrev 0) (nth 15 wrev 0)) in
      extend n' (rotl 1 w :: wrev)
  end.

Definition schedule (block : list Z) : list Z :=
  rev (extend 64 (rev (words block))).

Record state := State { ha : Z; hb : Z; hc : Z; hd : Z; he : Z }.

Definition round (t : nat) (w : Z) (s : state) : state :=
  let temp := w32 (rotl 5 (ha s) + f t (hb s) (hc s) (hd s) + he s + K t + w) in
  State temp (ha s) (rotl 30 (hb s)) (hc s) (hd s).

Fixpoint rounds (t : nat) (ws : list Z) (s : state) : state :=
  match ws with
  | [] => s
  | w :: ws' => rounds (S t) ws' (round t w s)
  end.

Definition compress (block : list Z) (h : state) : state :=
  let s := rounds 0 (schedule block) h in
  State (w32 (ha h + ha s)) (w32 (hb h + hb s)) (w32 (hc h + hc s))
        (w32 (hd h + hd s)) (w32 (he h + he s)).

Fixpoint blocks (n : nat) (bs : list Z) (h : state) : state :=
  match n with
  | O => h
  | S n' => blocks n' (skipn 64 bs) (compress (firstn 64 bs) h)
  end.

Definition initial : state :=
  State 1732584193 4023233417 2562383102 271733878 3285377520.

Definition hash (msg : list Z) : state :=
  let p := pad msg in
  blocks (Nat.div (List.length p) 64) p initial.

Definition hex_lower (d : Z) : Z := if d <? 10 then 48 + d else 87 + d.

Definition hex_word (w : Z) : jsstring :=
  map (fun i => hex_lower ((w / 16 ^ i) mod 16)) [7; 6; 5; 4; 3; 2; 1; 0].

Definition hex (s : state) : jsstring :=
  hex_word (ha s) ++ hex_word (hb s) ++ hex_word (hc s)
  ++ hex_word (hd s) ++ hex_word (he s).

End Sha1.

(** The argument of [sha1]: [string | Buffer]. *)
Inductive Data :=
| OfString (s : jsstring)
| OfBuffer (b : Buffer).

Definition bytes_of (d : Data) : list Z :=
  match d with
  | OfString s => utf8_bytes s
  | OfBuffer b => map octet b
  end.

Definition sha1 (data : Data) : jsstring :=
  Sha1.hex (Sha1.hash (bytes_of data)).

End Util.


(* ================================================================== *)
(** * The HTTP transport *)
(* ================================================================== *)

(** What the client hands to axios, and what it gets back. The server is an
    oracle that answers a call given the calls made before it; every call is
    recorded. *)

Module Axios.
Import Js.

Inductive Method := GET | POST.

Inductive HeaderValue :=
| HStr (s : jsstring)
| HNum (n : number).

Definition Headers := list (jsstring * HeaderValue).

Fixpoint header (name : jsstring) (hs : Headers) : option HeaderValue :=
  match hs with
  | [] => None
  | (k, v) :: hs' => if eqb name k then Some v else header name hs'
  end.

(** A progress callback: the client only passes it along. *)
Inductive Callback := Handler (id : nat).

Record Config := {
  headers : Headers;
  maxRedirects : option number;
  responseType : option jsstring;
  onUploadProgress : option Callback;
  onDownloadProgress : option Callback
}.

(** [axios.create({ baseURL, headers })] *)
Record Instance := {
  baseURL : jsstring;
  defaults : Headers
}.

(** The transport a call goes through: [axios] itself, or an instance made
    by [axios.create]. *)
Inductive Client :=
| Static
| Created (i : Instance).

Inductive Body :=
| JsonBody (o : object)
| RawBody (b : Buffer).

Record Call := {
  via : Client;
  method : Method;
  url : jsstring;
  body : option Body;
  config : option Config
}.

(** Modelled from the spec: [response-types.ts] is not among the sources.
    The authorization payload carries the session token, the API and download
    base URLs and the restrictions of the key; the bucket the key is limited
    to may be [null] or missing. *)
Record Allowed := {
  allowed_bucketId : Field;
  allowed_rest : object
}.

(** Modelled from the spec: [response-types.ts] is not among the sources.
    The payload of [b2_authorize_account]; [authorize] reads [apiUrl],
    [authorizationToken] and [downloadUrl], the facade reads
    [allowed.bucketId]. *)
Record AuthorizationResponse := {
  auth_accountId : jsstring;
  authorizationToken : jsstring;
  apiUrl : jsstring;
  auth_downloadUrl : jsstring;
  allowed : Allowed;
  auth_rest : object
}.

(** Modelled from the spec: [response-types.ts] is not among the sources.
    The ticket returned by [b2_get_upload_url]. *)
Record GetUploadUrlResponse := {
  ticket_bucketId : jsstring;
  uploadUrl : jsstring;
  ticket_authorizationToken : jsstring
}.

(** Modelled from the spec: [response-types.ts] is not among the sources.
    The storage class of a bucket, a string at run time. *)
Definition BucketType := jsstring.

Record Server := {
  authorize_account : list Call -> Call -> Result AuthorizationResponse;
  upload_url : list Call -> Call -> Result GetUploadUrlResponse;
  respond : list Call -> Call -> Result JsVal
}.

(** Computations of a method on an object of state [S]: they read the
    server, may update the object, and extend the log of calls. An exception
    keeps the updates made before it. *)
Definition M (S A : Type) : Type :=
  Server -> S -> list Call -> Result A * S * list Call.

Definition ret {S A} (a : A) : M S A :=
  fun _ st log => (Ok a, st, log).

Definition throw {S A} (e : Exn) : M S A :=
  fun _ st log => (Throw e, st, log).

Definition mbind {S A B} (m : M S A) (k : A -> M S B) : M S B :=
  fun srv st log =>
    match m srv st log with
    | (Ok a, st', log') => k a srv st' log'
    | (Throw e, st', log') => (Throw e, st', log')
    end.

Definition lift {S A} (r : Result A) : M S A :=
  fun _ st log => (r, st, log).

Definition get {S} : M S S :=
  fun _ st log => (Ok st, st, log).

Definition put {S} (st : S) : M S unit :=
  fun _ _ log => (Ok tt, st, log).

(** One request: the call is logged and the server's answer is the result
    of the awaited promise. *)
Definition send {S A} (answer : Server -> list Call -> Call -> Result A)
    (c : Call) : M S A :=
  fun srv st log => (answer srv log c, st, log ++ [c]).

Definition mmap {S A B} (f : A -> B) (m : M S A) : M S B :=
  mbind m (fun a => ret (f a)).

(** The outcome of a run: what the method returned or threw, the object
    afterwards, and the log afterwards. *)
Definition result {S A} (o : Result A * S * list Call) : Result A :=
  fst (fst o).

Definition final {S A} (o : Result A * S * list Call) : S :=
  snd (fst o).

Definition calls {S A} (o : Result A * S * list Call) : list Call :=
  snd o.

(** The calls a computation adds to the log. *)
Definition issued {S A} (m : M S A) (srv : Server) (st : S) (log : list Call)
  : list Call :=
  skipn (List.length log) (calls (m srv st log)).

Definition headers_of (c : Call) : Headers :=
  match config c with
  | Some cfg => headers cfg
  | None => []
  end.

Definition sent_header (name : jsstring) (c : Call) : option HeaderValue :=
  header name (headers_of c).

Definition max_redirects (c : Call) : option number :=
  match config c with
  | Some cfg => maxRedirects cfg
  | None => None
  end.

(** A property of the JSON body of a call. *)
Definition body_prop (k : jsstring) (c : Call) : JsVal :=
  match body c with
  | Some (JsonBody o) => get_prop k o
  | _ => VUndefined
  end.

End Axios.

Declare Scope js_scope.
Notation "x <- m ;; k" := (Axios.mbind m (fun x => k))
  (at level 61, m at next level, right associativity) : js_scope.
Notation "m ;;; k" := (Axios.mbind m (fun _ => k))
  (at level 61, right associativity) : js_scope.

(* ================================================================== *)
(** * src/b2.ts: the session client *)
(* ================================================================== *)

Module B2.
Import Js Util Axios.
Local Open Scope js_scope.

Definition API_VERSION_URL : jsstring := lit "/b2api/v1".
Definition API_AUTHORIZE_URL : jsstring :=
  lit "https://api.backblaze.com" ++ API_VERSION_URL
  ++ lit "/b2_authorize_account".

(** The fields are declared without initialisers: they are [undefined]
    until [authorize] assigns them. *)
Record t := {
  axios : option Instance;
  accountId : option jsstring;
  downloadUrl : option jsstring
}.

(** [new B2()] *)
Definition new : t :=
  {| axios := None; accountId := None; downloadUrl := None |}.

(** [this.axios.<prop>]: reading a property of [undefined] is a
    [TypeError]. *)
Definition this_axios (prop : jsstring) : M t Instance :=
  st <- get ;;
  match axios st with
  | Some i => ret i
  | None => throw (TypeError prop)
  end.

Definition no_config : option Config := None.

(** [this.axios.post(path, data).then(res => res.data)] *)
Definition post (path : jsstring) (data : object) : M t JsVal :=
  i <- this_axios (lit "post") ;;
  send respond
    {| via := Created i; method := POST; url := path;
       body := Some (JsonBody data); config := no_config |}.

Definition authorize (accountId' applicationKey : jsstring)
  : M t AuthorizationResponse :=
  res <- send authorize_account
    {| via := Static; method := GET; url := API_AUTHORIZE_URL; body := None;
       config := Some
         {| headers :=
              [(lit "Authorization",
                HStr (lit "Basic "
                      ++ base64
                           (utf8_bytes
                              (accountId' ++ lit ":" ++ applicationKey))))];
            maxRedirects := None; responseType := None;
            onUploadProgress := None; onDownloadProgress := None |} |} ;;
  st <- get ;;
  put {| axios := axios st; accountId := Some accountId';
         downloadUrl := downloadUrl st |} ;;;
  st <- get ;;
  put {| axios := Some
           {| baseURL := apiUrl res ++ API_VERSION_URL;
              defaults := [(lit "Authorization",
                            HStr (authorizationToken res))] |};
         accountId := accountId st; downloadUrl := downloadUrl st |} ;;;
  st <- get ;;
  put {| axios := axios st; accountId := accountId st;
         downloadUrl := Some (auth_downloadUrl res) |} ;;;
  ret res.

(** ** Buckets *)

Definition createBucket (bucketName : jsstring) (bucketType : BucketType)
  : M t JsVal :=
  i <- this_axios (lit "post") ;;
  st <- get ;;
  send respond
    {| via := Created i; method := POST; url := lit "/b2_create_bucket";
       body := Some (JsonBody [(lit "accountId", or_undefined (accountId st));
                               (lit "bucketName", VStr bucketName);
                               (lit "bucketType", VStr bucketType)]);
       config := no_config |}.

Definition deleteBucket (bucketId : jsstring) : M t JsVal :=
  i <- this_axios (lit "post") ;;
  st <- get ;;
  send respond
    {| via := Created i; method := POST; url := lit "/b2_delete_bucket";
       body := Some (JsonBody [(lit "accountId", or_undefined (accountId st));
                               (lit "bucketId", VStr bucketId)]);
       config := no_config |}.

Definition listBuckets : M t JsVal :=
  i <- this_axios (lit "post") ;;
  st <- get ;;
  send respond
    {| via := Created i; method := POST; url := lit "/b2_list_buckets";
       body := Some (JsonBody [(lit "accountId", or_undefined (accountId st))]);
       config := no_config |}.

Definition updateBucket (bucketId : jsstring) (bucketType : BucketType)
  : M t JsVal :=
  i <- this_axios (lit "post") ;;
  st <- get ;;
  send respond
    {| via := Created i; method := POST; url := lit "/b2_update_bucket";
       body := Some (JsonBody [(lit "accountId", or_undefined (accountId st));
                               (lit "bucketId", VStr bucketId);
                               (lit "bucketType", VStr bucketType)]);
       config := no_config |}.

(** ** Uploads *)

Definition getUploadUrl (data : object) : M t GetUploadUrlResponse :=
  i <- this_axios (lit "post") ;;
  send upload_url
    {| via := Created i; method := POST; url := lit "/b2_get_upload_url";
       body := Some (JsonBody data); config := no_config |}.

Record UploadFileOpts := {
  uf_uploadUrl : jsstring;
  uf_uploadAuthToken : jsstring;
  uf_filename : jsstring;
  uf_data : Buffer;
  uf_mime : option jsstring;
  uf_hash : option jsstring;
  uf_onUploadProgress : option Callback
}.

(** [data.byteLength || data.length] *)
Definition content_length (data : Buffer) : number :=
  or_num (number_of_nat (List.length data)) (number_of_nat (List.length data)).

Definition uploadFile (o : UploadFileOpts) : M t JsVal :=
  encodedFilename <- lift (getUrlEncodedFilename (uf_filename o)) ;;
  (* note we use the global rather than instance axios *)
  send respond
    {| via := Static; method := POST; url := uf_uploadUrl o;
       body := Some (RawBody (uf_data o));
       config := Some
         {| headers :=
              [(lit "Authorization", HStr (uf_uploadAuthToken o));
               (lit "Content-Type",
                HStr (or_else (uf_mime o) (lit "b2/x-auto")));
               (lit "Content-Length", HNum (content_length (uf_data o)));
               (lit "X-Bz-File-Name", HStr encodedFilename);
               (lit "X-Bz-Content-Sha1",
                HStr (or_else (uf_hash o) (sha1 (OfBuffer (uf_data o)))))];
            maxRedirects := Some 0%float;
            responseType := None;
            onUploadProgress := uf_onUploadProgress o;
            onDownloadProgress := None |} |}.

(** ** Query and manipulate files *)

Definition listFileNames (data : object) : M t JsVal :=
  post (lit "/b2_list_file_names") data.

Definition listFileVersions (data : object) : M t JsVal :=
  post (lit "/b2_list_file_versions") data.

Definition hideFile (data : object) : M t JsVal :=
  post (lit "/b2_hide_file") data.

Definition getFileInfo (data : object) : M t JsVal :=
  post (lit "/b2_get_file_info") data.

Definition deleteFileVersion (data : object) : M t JsVal :=
  post (lit "/b2_delete_file_version") data.

(** ** Downloads *)

Definition getDownloadAuthorization (data : object) : M t JsVal :=
  post (lit "/b2_get_download_authorization") data.

Record DownloadByNameOpts := {
  dn_bucketName : jsstring;
  dn_fileName : jsstring;
  dn_responseType : option jsstring;
  dn_onDownloadProgress : option Callback
}.

Definition downloadFileByName (o : DownloadByNameOpts) : M t JsVal :=
  encodedFileName <- lift (getUrlEncodedFilename (dn_fileName o)) ;;
  i <- this_axios (lit "get") ;;
  st <- get ;;
  send respond
    {| via := Created i; method := GET;
       url := show (downloadUrl st) ++ lit "/file/" ++ dn_bucketName o
              ++ lit "/" ++ encodedFileName;
       body := None;
       config := Some
         {| headers := []; maxRedirects := None;
            responseType := dn_responseType o;
            onUploadProgress := None;
            onDownloadProgress := dn_onDownloadProgress o |} |}.

Record DownloadByIdOpts := {
  di_fileId : jsstring;
  di_responseType : option jsstring;
  di_onDownloadProgress : option Callback
}.

Definition downloadFileById (o : DownloadByIdOpts) : M t JsVal :=
  i <- this_axios (lit "get") ;;
  st <- get ;;
  send respond
    {| via := Created i; method := GET;
       url := show (downloadUrl st) ++ API_VERSION_URL
              ++ lit "/b2_download_file_by_id?fileId=" ++ di_fileId o;
       body := None;
       config := Some
         {| headers := []; maxRedirects := None;
            responseType := di_responseType o;
            onUploadProgress := None;
            onDownloadProgress := di_onDownloadProgress o |} |}.

(** ** Large uploads *)

Record StartLargeFileOpts := {
  sl_bucketId : option jsstring;
  sl_fileName : jsstring;
  sl_contentType : option jsstring
}.

Definition startLargeFile (o : StartLargeFileOpts) : M t JsVal :=
  let contentType :=
    match sl_contentType o with
    | Some c => c
    | None => lit "b2/x-auto"
    end in
  i <- this_axios (lit "post") ;;
  send respond
    {| via := Created i; method := POST; url := lit "/b2_start_large_file";
       body := Some (JsonBody [(lit "bucketId", or_undefined (sl_bucketId o));
                               (lit "fileName", VStr (sl_fileName o));
                               (lit "contentType", VStr contentType)]);
       config := no_config |}.

Definition getUploadPartUrl (data : object) : M t JsVal :=
  post (lit "/b2_get_upload_part_url") data.

Record UploadPartOpts := {
  up_uploadUrl : jsstring;
  up_uploadAuthToken : jsstring;
  up_partNumber : number;
  up_data : Buffer;
  up_onUploadProgress : option Callback
}.

Definition uploadPart (o : UploadPartOpts) : M t JsVal :=
  send respond
    {| via := Static; method := POST; url := up_uploadUrl o;
       body := Some (RawBody (up_data o));
       config := Some
         {| headers :=
              [(lit "Authorization", HStr (up_uploadAuthToken o));
               (lit "Content-Length", HNum (content_length (up_data o)));
               (lit "X-Bz-Part-Number", HNum (up_partNumber o));
               (lit "X-Bz-Content-Sha1", HStr (sha1 (OfBuffer (up_data o))))];
            maxRedirects := Some 0%float;
            responseType := None;
            onUploadProgress := up_onUploadProgress o;
            onDownloadProgress := None |} |}.

Definition finishLargeFile (data : object) : M t JsVal :=
  post (lit "/b2_finish_large_file") data.

Definition cancelLargeFile (data : object) : M t JsVal :=
  post (lit "/b2_cancel_large_file") data.

(** ** The operations of the client, as one type *)

Inductive Op :=
| Authorize (accountId' applicationKey : jsstring)
| CreateBucket (bucketName : jsstring) (bucketType : BucketType)
| DeleteBucket (bucketId : jsstring)
| ListBuckets
| UpdateBucket (bucketId : jsstring) (bucketType : BucketType)
| GetUploadUrl (data : object)
| UploadFile (o : UploadFileOpts)
| ListFileNames (data : object)
| ListFileVersions (data : object)
| HideFile (data : object)
| GetFileInfo (data : object)
| DeleteFileVersion (data : object)
| GetDownloadAuthorization (data : object)
| DownloadFileByName (o : DownloadByNameOpts)
| DownloadFileById (o : DownloadByIdOpts)
| StartLargeFile (o : StartLargeFileOpts)
| GetUploadPartUrl (data : object)
| UploadPart (o : UploadPartOpts)
| FinishLargeFile (data : object)
| CancelLargeFile (data : object).

Inductive Reply :=
| Authorization (r : AuthorizationResponse)
| Ticket (r : GetUploadUrlResponse)
| Data (v : JsVal).

Definition invoke (op : Op) : M t Reply :=
  match op with
  | Authorize a k => mmap Authorization (authorize a k)
  | CreateBucket n ty => mmap Data (createBucket n ty)
  | DeleteBucket b => mmap Data (deleteBucket b)
  | ListBuckets => mmap Data listBuckets
  | UpdateBucket b ty => mmap Data (updateBucket b ty)
  | GetUploadUrl d => mmap Ticket (getUploadUrl d)
  | UploadFile o => mmap Data (uploadFile o)
  | ListFileNames d => mmap Data (listFileNames d)
  | ListFileVersions d => mmap Data (listFileVersions d)
  | HideFile d => mmap Data (hideFile d)
  | GetFileInfo d => mmap Data (getFileInfo d)
  | DeleteFileVersion d => mmap Data (deleteFileVersion d)
  | GetDownloadAuthorization d => mmap Data (getDownloadAuthorization d)
  | DownloadFileByName o => mmap Data (downloadFileByName o)
  | DownloadFileById o => mmap Data (downloadFileById o)
  | StartLargeFile o => mmap Data (startLargeFile o)
  | GetUploadPartUrl d => mmap Data (getUploadPartUrl d)
  | UploadPart o => mmap Data (uploadPart o)
  | FinishLargeFile d => mmap Data (finishLargeFile d)
  | CancelLargeFile d => mmap Data (cancelLargeFile d)
  end.

Definition is_authorize (op : Op) : bool :=
  match op with
  | Authorize _ _ => true
  | _ => false
  end.

(** The operations that go through [this.axios]; the two uploads go through
    the module-level [axios] instead. *)
Definition through_session (op : Op) : bool :=
  match op with
  | Authorize _ _ | UploadFile _ | UploadPart _ => false
  | _ => true
  end.

End B2.

(* ================================================================== *)
(** * src/b2-bucket.ts: the bucket-scoped facade *)
(* ================================================================== *)

Module B2Bucket.
Import Js Util Axios.
Local Open Scope js_scope.

Record t := {
  bucketId : option jsstring;
  b2 : option B2.t
}.

(** [new B2Bucket()] *)
Definition new : t := {| bucketId := None; b2 := None |}.

(** [this.b2.<prop>(...)]: the method runs on the object [this.b2] refers
    to, and what it assigns stays assigned; on [undefined] the property read
    is a [TypeError]. *)
Definition this_b2 {A} (prop : jsstring) (m : M B2.t A) : M t A :=
  fun srv st log =>
    match b2 st with
    | None => (Throw (TypeError prop), st, log)
    | Some c =>
        let '(r, c', log') := m srv c log in
        (r, {| bucketId := bucketId st; b2 := Some c' |}, log')
    end.

Record AuthorizeOpts := {
  ao_accountId : jsstring;
  ao_applicationKey : jsstring;
  ao_bucketId : jsstring
}.

Definition mismatch (allowedBucketId : Field) : jsstring :=
  lit "Allowed bucket does not match provided bucket id! Bucket id returned: "
  ++ show_field allowedBucketId.

Definition authorize (o : AuthorizeOpts) : M t AuthorizationResponse :=
  st <- get ;;
  put {| bucketId := Some (ao_bucketId o); b2 := b2 st |} ;;;
  st <- get ;;
  put {| bucketId := bucketId st; b2 := Some B2.new |} ;;;
  resp <- this_b2 (lit "authorize")
            (B2.authorize (ao_accountId o) (ao_applicationKey o)) ;;
  let allowedBucketId := allowed_bucketId (allowed resp) in
  if negb (truthy_field allowedBucketId)
     || strict_neq allowedBucketId (ao_bucketId o)
  then throw (Error (mismatch allowedBucketId))
  else ret resp.

(** ** Uploads *)

Definition getUploadUrl : M t GetUploadUrlResponse :=
  st <- get ;;
  this_b2 (lit "getUploadUrl")
    (B2.getUploadUrl [(lit "bucketId", or_undefined (bucketId st))]).

Definition uploadFile (o : B2.UploadFileOpts) : M t JsVal :=
  this_b2 (lit "uploadFile") (B2.uploadFile o).

Record UploadOpts := {
  u_filename : jsstring;
  u_data : Buffer;
  u_mime : option jsstring;
  u_hash : option jsstring;
  u_onUploadProgress : option Callback
}.

Definition upload (o : UploadOpts) : M t JsVal :=
  ticket <- getUploadUrl ;;
  uploadFile
    {| B2.uf_uploadUrl := uploadUrl ticket;
       B2.uf_uploadAuthToken := ticket_authorizationToken ticket;
       B2.uf_filename := u_filename o;
       B2.uf_data := u_data o;
       B2.uf_mime := u_mime o;
       B2.uf_hash := u_hash o;
       B2.uf_onUploadProgress := u_onUploadProgress o |}.

(** ** Query and manipulate files *)

(** [{ bucketId: this.bucketId, ...opts }] *)
Definition with_bucket (st : t) (opts : object) : object :=
  spread [(lit "bucketId", or_undefined (bucketId st))] opts.

(** A parameter declared [opts = {}]. *)
Definition or_empty (opts : option object) : object :=
  match opts with
  | Some o => o
  | None => []
  end.

Definition listFileNames (opts : option object) : M t JsVal :=
  st <- get ;;
  this_b2 (lit "listFileNames")
    (B2.listFileNames (with_bucket st (or_empty opts))).

Definition listFileVersions (opts : option object) : M t JsVal :=
  st <- get ;;
  this_b2 (lit "listFileVersions")
    (B2.listFileVersions (with_bucket st (or_empty opts))).

Definition hideFile (opts : object) : M t JsVal :=
  st <- get ;;
  this_b2 (lit "hideFile") (B2.hideFile (with_bucket st opts)).

Definition getFileInfo (opts : object) : M t JsVal :=
  this_b2 (lit "getFileInfo") (B2.getFileInfo opts).

Definition deleteFileVersion (opts : object) : M t JsVal :=
  this_b2 (lit "deleteFileVersion") (B2.deleteFileVersion opts).

(** ** Downloads *)

Definition getDownloadAuthorization (opts : object) : M t JsVal :=
  st <- get ;;
  this_b2 (lit "getDownloadAuthorization")
    (B2.getDownloadAuthorization (with_bucket st opts)).

Definition downloadFileByName (o : B2.DownloadByNameOpts) : M t JsVal :=
  this_b2 (lit "downloadFileByName") (B2.downloadFileByName o).

Definition downloadFileById (o : B2.DownloadByIdOpts) : M t JsVal :=
  this_b2 (lit "downloadFileById") (B2.downloadFileById o).

(** ** Large uploads *)

Record StartLargeFileOpts := {
  sl_fileName : jsstring;
  sl_contentType : option jsstring
}.

Definition startLargeFile (o : StartLargeFileOpts) : M t JsVal :=
  st <- get ;;
  this_b2 (lit "startLargeFile")
    (B2.startLargeFile
       {| B2.sl_bucketId := bucketId st;
          B2.sl_fileName := sl_fileName o;
          B2.sl_contentType := sl_contentType o |}).

Definition getUploadPartUrl (opts : object) : M t JsVal :=
  this_b2 (lit "getUploadPartUrl") (B2.getUploadPartUrl opts).

Definition uploadPart (o : B2.UploadPartOpts) : M t JsVal :=
  this_b2 (lit "uploadPart") (B2.uploadPart o).

Definition finishLargeFile (opts : object) : M t JsVal :=
  this_b2 (lit "finishLargeFile") (B2.finishLargeFile opts).

Definition cancelLargeFile (opts : object) : M t JsVal :=
  this_b2 (lit "cancelLargeFile") (B2.cancelLargeFile opts).

(** ** The operations of the facade, as one type *)

Inductive Op :=
| Authorize (o : AuthorizeOpts)
| Upload (o : UploadOpts)
| GetUploadUrl
| UploadFile (o : B2.UploadFileOpts)
| ListFileNames (opts : option object)
| ListFileVersions (opts : option object)
| HideFile (opts : object)
| GetFileInfo (opts : object)
| DeleteFileVersion (opts : object)
| GetDownloadAuthorization (opts : object)
| DownloadFileByName (o : B2.DownloadByNameOpts)
| DownloadFileById (o : B2.DownloadByIdOpts)
| StartLargeFile (o : StartLargeFileOpts)
| GetUploadPartUrl (opts : object)
| UploadPart (o : B2.UploadPartOpts)
| FinishLargeFile (opts : object)
| CancelLargeFile (opts : object).

Definition invoke (op : Op) : M t B2.Reply :=
  match op with
  | Authorize o => mmap B2.Authorization (authorize o)
  | Upload o => mmap B2.Data (upload o)
  | GetUploadUrl => mmap B2.Ticket getUploadUrl
  | UploadFile o => mmap B2.Data (uploadFile o)
  | ListFileNames o => mmap B2.Data (listFileNames o)
  | ListFileVersions o => mmap B2.Data (listFileVersions o)
  | HideFile o => mmap B2.Data (hideFile o)
  | GetFileInfo o => mmap B2.Data (getFileInfo o)
  | DeleteFileVersion o => mmap B2.Data (deleteFileVersion o)
  | GetDownloadAuthorization o => mmap B2.Data (getDownloadAuthorization o)
  | DownloadFileByName o => mmap B2.Data (downloadFileByName o)
  | DownloadFileById o => mmap B2.Data (downloadFileById o)
  | StartLargeFile o => mmap B2.Data (startLargeFile o)
  | GetUploadPartUrl o => mmap B2.Data (getUploadPartUrl o)
  | UploadPart o => mmap B2.Data (uploadPart o)
  | FinishLargeFile o => mmap B2.Data (finishLargeFile o)
  | CancelLargeFile o => mmap B2.Data (cancelLargeFile o)
  end.

Definition is_authorize (op : Op) : bool :=
  match op with
  | Authorize _ => true
  | _ => false
  end.

End B2Bucket.

(* ================================================================== *)
(** * The properties, in the words of the specification *)
(* ================================================================== *)

Module Spec.
Import Js Util.

(** [segs] are the path segments of [s]: the pieces between the
    separators, none of which holds a separator. *)
Definition segments (sep : Z) (s : jsstring) (segs : list jsstring) : Prop :=
  segs <> [] /\ Forall (fun seg => ~ In sep seg) segs /\ join sep segs = s.

(** [r] is [filename] with every path segment percent-encoded on its own
    and the encoded segments rejoined with ["/"]. *)
Definition encoded_path (filename r : jsstring) : Prop :=
  exists segs encs,
    segments slash filename segs
    /\ Forall2 (fun seg enc => encodeURIComponent seg = Ok enc) segs encs
    /\ r = join slash encs.

(** Split on ["/"], percent-decode each segment, rejoin with ["/"]. *)
Definition decodeFilename (r : jsstring) : Result jsstring :=
  fmap (join slash) (mapM decodeURIComponent (split slash r)).

Definition is_octet (b : Z) : Prop := 0 <= b < 256.

(** A Unicode scalar value: a code point that is not a surrogate. *)
Definition scalar (cp : Z) : Prop :=
  0 <= cp < 55296 \/ 57344 <= cp < 1114112.

(** No surrogate code unit stands outside a lead-trail pair. *)
Fixpoint well_formed (s : jsstring) : bool :=
  match s with
  | [] => true
  | c :: s' =>
      if is_lead c then
        match s' with
        | d :: s'' => is_trail d && well_formed s''
        | [] => false
        end
      else negb (is_trail c) && well_formed s'
  end.

End Spec.

(* ================================================================== *)
(** * Concrete servers and inputs *)
(* ================================================================== *)

Module Fixtures.
Import Js Util Axios.

Definition key_for (allowedBucketId : Field)
  : AuthorizationResponse :=
  {| auth_accountId := lit "acct";
     authorizationToken := lit "session-token";
     apiUrl := lit "https://api001.backblazeb2.com";
     auth_downloadUrl := lit "https://f001.backblazeb2.com";
     allowed := {| allowed_bucketId := allowedBucketId; allowed_rest := [] |};
     auth_rest := [] |}.

(** A server that accepts everything; its keys are limited to the given
    bucket. *)
Definition accepting (allowedBucketId : Field) : Server :=
  {| authorize_account := fun _ _ => Ok (key_for allowedBucketId);
     upload_url := fun _ _ =>
       Ok {| ticket_bucketId := lit "b1";
             uploadUrl := lit "https://pod.backblaze.com/upload";
             ticket_authorizationToken := lit "ticket" |};
     respond := fun _ _ => Ok (VObj []) |}.

Definition file (filename : jsstring) (data : Buffer) (hash : option jsstring)
  : B2.UploadFileOpts :=
  {| B2.uf_uploadUrl := lit "https://pod.backblaze.com/upload";
     B2.uf_uploadAuthToken := lit "ticket";
     B2.uf_filename := filename;
     B2.uf_data := data;
     B2.uf_mime := None;
     B2.uf_hash := hash;
     B2.uf_onUploadProgress := None |}.

Definition part (partNumber : number) (data : Buffer) : B2.UploadPartOpts :=
  {| B2.up_uploadUrl := lit "https://pod.backblaze.com/part";
     B2.up_uploadAuthToken := lit "ticket";
     B2.up_partNumber := partNumber;
     B2.up_data := data;
     B2.up_onUploadProgress := None |}.

Definition credentials (bucketId : jsstring) : B2Bucket.AuthorizeOpts :=
  {| B2Bucket.ao_accountId := lit "acct";
     B2Bucket.ao_applicationKey := lit "key";
     B2Bucket.ao_bucketId := bucketId |}.

(** A server that rejects everything with the given status. *)
Definition rejecting (status : Z) : Server :=
  {| authorize_account := fun _ _ => Throw (TransportError status);
     upload_url := fun _ _ => Throw (TransportError status);
     respond := fun _ _ => Throw (TransportError status) |}.

(** A facade as a successful [authorize] for the bucket leaves it. *)
Definition authorized_facade (bucketId : jsstring) : B2Bucket.t :=
  Axios.final
    (B2Bucket.authorize (credentials bucketId) (accepting (Str bucketId))
                        B2Bucket.new []).

Definition upload_of (filename : jsstring) (data : Buffer)
  : B2Bucket.UploadOpts :=
  {| B2Bucket.u_filename := filename;
     B2Bucket.u_data := data;
     B2Bucket.u_mime := None;
     B2Bucket.u_hash := None;
     B2Bucket.u_onUploadProgress := None |}.

End Fixtures.

(* ================================================================== *)
(** * Proofs *)
(* ================================================================== *)

Import Js Util Axios.

(** ** Lists of code units, two at a time *)

Lemma list_ind2 {A} (P : list A -> Prop) :
  P [] ->
  (forall a, P [a]) ->
  (forall a b l, P l -> P (b :: l) -> P (a :: b :: l)) ->
  forall l, P l.
Proof.
  intros H0 H1 H2 l.
  assert (H : P l /\ forall a, P (a :: l)).
  { induction l as [|b l [IHl IHc]].
    - split; [exact H0 | exact H1].
    - split; [apply IHc | intro a; apply H2; [exact IHl | apply IHc]]. }
  apply H.
Qed.

(** ** [split] and [join] *)

Lemma split_nonempty sep s : split sep s <> [].
Proof.
  destruct s as [|c s]; simpl; [discriminate|].
  destruct (c =? sep); [discriminate|].
  destruct (split sep s); discriminate.
Qed.

Lemma join_cons sep x y l :
  join sep (x :: y :: l) = x ++ sep :: join sep (y :: l).
Proof. reflexivity. Qed.

Lemma join_split sep s : join sep (split sep s) = s.
Proof.
  induction s as [|c s IH]; [reflexivity|].
  simpl. destruct (Z.eqb_spec c sep) as [->|Hne].
  - pose proof (split_nonempty sep s) as Hn.
    destruct (split sep s) as [|y l]; [congruence|].
    now rewrite join_cons, IH.
  - pose proof (split_nonempty sep s) as Hn.
    destruct (split sep s) as [|seg segs]; [congruence|].
    destruct segs as [|y l].
    + simpl in *. now rewrite IH.
    + rewrite join_cons in *. rewrite <- IH. reflexivity.
Qed.

Lemma split_no_sep sep s : Forall (fun seg => ~ In sep seg) (split sep s).
Proof.
  induction s as [|c s IH]; simpl.
  - constructor; [intros [] | constructor].
  - destruct (Z.eqb_spec c sep) as [->|Hne].
    + constructor; [intros [] | exact IH].
    + destruct (split sep s) as [|seg segs].
      * constructor; [|constructor]. intros [H|[]]. congruence.
      * inversion IH as [|? ? Hseg Hsegs]; subst.
        constructor; [|exact Hsegs]. intros [H|H]; [congruence | auto].
Qed.

Lemma split_single sep x : ~ In sep x -> split sep x = [x].
Proof.
  induction x as [|c x IH]; intros Hn; [reflexivity|].
  simpl. destruct (Z.eqb_spec c sep) as [->|Hne].
  - exfalso. apply Hn. now left.
  - rewrite IH; [reflexivity|]. intro H. apply Hn. now right.
Qed.

Lemma split_app_sep sep x rest :
  ~ In sep x -> split sep (x ++ sep :: rest) = x :: split sep rest.
Proof.
  induction x as [|c x IH]; intros Hn; simpl.
  - now rewrite Z.eqb_refl.
  - destruct (Z.eqb_spec c sep) as [->|Hne].
    + exfalso. apply Hn. now left.
    + rewrite IH; [reflexivity|]. intro H. apply Hn. now right.
Qed.

Lemma split_join sep segs :
  segs <> [] -> Forall (fun seg => ~ In sep seg) segs ->
  split sep (join sep segs) = segs.
Proof.
  induction segs as [|x l IH]; intros Hne Hall; [congruence|].
  inversion Hall as [|? ? Hx Hl]; subst.
  destruct l as [|y l].
  - simpl. now apply split_single.
  - rewrite join_cons, split_app_sep by exact Hx.
    f_equal. apply IH; [discriminate | exact Hl].
Qed.

Lemma segments_split sep s segs :
  Spec.segments sep s segs <-> segs = split sep s.
Proof.
  unfold Spec.segments. split.
  - intros (Hne & Hall & <-). symmetry. now apply split_join.
  - intros ->. split; [apply split_nonempty|].
    split; [apply split_no_sep | apply join_split].
Qed.

(** ** Escapes *)

Ltac zbool :=
  repeat match goal with
  | |- context [?a <? ?b] => destruct (Z.ltb_spec a b); try lia
  | |- context [?a <=? ?b] => destruct (Z.leb_spec a b); try lia
  | |- context [?a =? ?b] => destruct (Z.eqb_spec a b); try lia
  end.

Ltac zbool_in H :=
  repeat match type of H with
  | context [?a <? ?b] => destruct (Z.ltb_spec a b); try lia
  | context [?a <=? ?b] => destruct (Z.leb_spec a b); try lia
  | context [?a =? ?b] => destruct (Z.eqb_spec a b); try lia
  end.

Lemma hex_value_upper d : 0 <= d < 16 -> hex_value (hex_upper d) = Some d.
Proof.
  intros H. unfold hex_value, hex_upper. zbool; cbn [andb]; f_equal; lia.
Qed.

Lemma hex_upper_range d :
  0 <= d < 16 -> 48 <= hex_upper d <= 70.
Proof. intros H. unfold hex_upper. zbool. Qed.

Lemma unescaped_ascii c :
  unescaped c = true ->
  33 <= c <= 126 /\ c <> 37 /\ c <> 47.
Proof.
  unfold unescaped. intros H.
  zbool_in H; cbn in H; try discriminate; lia.
Qed.

Lemma unescape_pct h l s :
  unescape (37 :: h :: l :: s)
  = match hex_value h, hex_value l with
    | Some x, Some y => fmap (cons (Octet (16 * x + y))) (unescape s)
    | _, _ => Throw URIError
    end.
Proof. reflexivity. Qed.

Lemma unescape_unit c s :
  c <> 37 -> unescape (c :: s) = fmap (cons (Unit c)) (unescape s).
Proof.
  intros H. cbn [unescape]. destruct (Z.eqb_spec c 37); [lia | reflexivity].
Qed.

Lemma fmap_fmap {A B C} (f : A -> B) (g : B -> C) (r : Result A) :
  fmap g (fmap f r) = fmap (fun a => g (f a)) r.
Proof. destruct r; reflexivity. Qed.

Lemma fmap_ext {A B} (f g : A -> B) (r : Result A) :
  (forall a, f a = g a) -> fmap f r = fmap g r.
Proof. intros H. destruct r; cbn; [now rewrite H | reflexivity]. Qed.

Lemma fmap_id {A} (r : Result A) : fmap (fun a => a) r = r.
Proof. destruct r; reflexivity. Qed.

Lemma unescape_escape octs r :
  Forall Spec.is_octet octs ->
  unescape (escape octs ++ r) = fmap (app (map Octet octs)) (unescape r).
Proof.
  induction 1 as [|b octs Hb _ IH].
  - cbn. symmetry. apply fmap_id.
  - unfold Spec.is_octet in Hb.
    change (escape (b :: octs)) with (escape_octet b ++ escape octs).
    unfold escape_octet. cbn [app].
    rewrite unescape_pct, !hex_value_upper, IH, fmap_fmap.
    + apply fmap_ext. intros its. cbn [map app]. do 2 f_equal.
      symmetry. apply Z.div_mod. lia.
    + apply Z.mod_pos_bound. lia.
    + split; [apply Z.div_pos; lia | apply Z.div_lt_upper_bound; lia].
Qed.

Lemma escape_no_slash octs :
  Forall Spec.is_octet octs -> ~ In slash (escape octs).
Proof.
  induction 1 as [|b octs Hb _ IH]; [intros []|].
  unfold Spec.is_octet in Hb.
  change (escape (b :: octs)) with (escape_octet b ++ escape octs).
  intros Hin. apply in_app_or in Hin. destruct Hin as [Hin|Hin]; [|auto].
  unfold escape_octet, slash in Hin.
  assert (0 <= b / 16 < 16)
    by (split; [apply Z.div_pos; lia | apply Z.div_lt_upper_bound; lia]).
  assert (0 <= b mod 16 < 16) by (apply Z.mod_pos_bound; lia).
  pose proof (hex_upper_range (b / 16)).
  pose proof (hex_upper_range (b mod 16)).
  destruct Hin as [Hin|[Hin|[Hin|[]]]]; lia.
Qed.

(** ** UTF-8 *)

Lemma utf8_octets cp :
  0 <= cp < 1114112 -> Forall Spec.is_octet (utf8 cp).
Proof.
  intros H. unfold utf8, Spec.is_octet.
  zbool; repeat constructor; Z.to_euclidean_division_equations; lia.
Qed.

Lemma utf16_unit c : c < 65536 -> utf16 c = [c].
Proof. intros H. unfold utf16. zbool. reflexivity. Qed.

Lemma utf16_pair c d :
  is_lead c = true -> is_trail d = true ->
  utf16 (pair_code_point c d) = [c; d].
Proof.
  unfold is_lead, is_trail, utf16, pair_code_point. intros Hc Hd.
  zbool_in Hc; try discriminate. zbool_in Hd; try discriminate.
  zbool. f_equal; [|f_equal]; Z.to_euclidean_division_equations; lia.
Qed.

Lemma assemble_utf8 cp l :
  Spec.scalar cp ->
  assemble (map Octet (utf8 cp) ++ l) = fmap (app (utf16 cp)) (assemble l).
Proof.
  unfold Spec.scalar. intros Hs. unfold utf8.
  pose proof (Z.div_mod cp 64 ltac:(lia)) as E0.
  pose proof (Z.mod_pos_bound cp 64 ltac:(lia)) as B0.
  pose proof (Z.div_mod (cp / 64) 64 ltac:(lia)) as E1.
  pose proof (Z.mod_pos_bound (cp / 64) 64 ltac:(lia)) as B1.
  pose proof (Z.div_mod (cp / 64 / 64) 64 ltac:(lia)) as E2.
  pose proof (Z.mod_pos_bound (cp / 64 / 64) 64 ltac:(lia)) as B2.
  change 4096 with (64 * 64). change 262144 with (64 * 64 * 64).
  rewrite <- !Z.div_div by lia.
  set (r0 := cp mod 64) in *. set (q0 := cp / 64) in *.
  set (r1 := q0 mod 64) in *. set (q1 := q0 / 64) in *.
  set (r2 := q1 mod 64) in *. set (q2 := q1 / 64) in *.
  destruct (Z.ltb_spec cp 128); [|destruct (Z.ltb_spec cp 2048);
    [|destruct (Z.ltb_spec cp 65536)]].
  - cbn [map app assemble]. destruct (Z.ltb_spec cp 128); [|lia].
    rewrite utf16_unit by lia. reflexivity.
  - cbn [map app assemble]. cbv zeta. unfold continuation.
    replace ((192 + q0 - 192) * 64 + (128 + r0 - 128)) with cp by lia.
    zbool. reflexivity.
  - cbn [map app assemble]. cbv zeta. unfold continuation, is_surrogate.
    replace (((224 + q1 - 224) * 64 + (128 + r1 - 128)) * 64
             + (128 + r0 - 128)) with cp by lia.
    zbool; reflexivity.
  - cbn [map app assemble]. cbv zeta. unfold continuation.
    replace ((((240 + q2 - 240) * 64 + (128 + r2 - 128)) * 64
              + (128 + r1 - 128)) * 64 + (128 + r0 - 128)) with cp by lia.
    zbool. reflexivity.
Qed.

(** ** [decodeURIComponent] undoes [encodeURIComponent] *)

Lemma fmap_Ok {A B} (f : A -> B) (x : Result A) (b : B) :
  fmap f x = Ok b -> exists a, x = Ok a /\ b = f a.
Proof.
  destruct x as [a|e]; cbn; intros H; [|discriminate].
  exists a. split; [reflexivity | congruence].
Qed.

Lemma decode_unit c r :
  unescaped c = true ->
  decodeURIComponent (c :: r) = fmap (cons c) (decodeURIComponent r).
Proof.
  intros H. apply unescaped_ascii in H. unfold decodeURIComponent.
  rewrite unescape_unit by lia. destruct (unescape r); reflexivity.
Qed.

Lemma decode_escape cp r :
  Spec.scalar cp ->
  decodeURIComponent (escape (utf8 cp) ++ r)
  = fmap (app (utf16 cp)) (decodeURIComponent r).
Proof.
  intros H. unfold decodeURIComponent.
  rewrite unescape_escape
    by (apply utf8_octets; unfold Spec.scalar in H; lia).
  destruct (unescape r) as [its|e]; cbn; [|reflexivity].
  apply assemble_utf8, H.
Qed.

Lemma pair_scalar c d :
  is_lead c = true -> is_trail d = true -> Spec.scalar (pair_code_point c d).
Proof.
  unfold is_lead, is_trail, Spec.scalar, pair_code_point. intros Hc Hd.
  zbool_in Hc; try discriminate; zbool_in Hd; try discriminate; try lia.
Qed.

Lemma unit_scalar c :
  code_unit c -> is_lead c = false -> is_trail c = false -> Spec.scalar c.
Proof.
  unfold code_unit, is_lead, is_trail, Spec.scalar. intros H Hc Hd.
  zbool_in Hc; try discriminate; zbool_in Hd; try discriminate; try lia.
Qed.

(** What [encodeURIComponent] does with the first code point. *)
Lemma encode_head c s r :
  encodeURIComponent (c :: s) = Ok r ->
  (unescaped c = true
   /\ exists r', encodeURIComponent s = Ok r' /\ r = c :: r')
  \/ (unescaped c = false /\ is_lead c = false /\ is_trail c = false
      /\ exists r', encodeURIComponent s = Ok r' /\ r = escape (utf8 c) ++ r')
  \/ (unescaped c = false /\ is_lead c = true
      /\ exists d s' r', s = d :: s' /\ is_trail d = true
           /\ encodeURIComponent s' = Ok r'
           /\ r = escape (utf8 (pair_code_point c d)) ++ r').
Proof.
  cbn [encodeURIComponent]. intros H.
  destruct (unescaped c) eqn:Hu.
  - left. split; [reflexivity|]. now apply fmap_Ok in H.
  - right. destruct (is_trail c) eqn:Ht; [discriminate|].
    destruct (is_lead c) eqn:Hl.
    + right. do 2 (split; [reflexivity|]).
      destruct s as [|d s']; [discriminate|].
      destruct (is_trail d) eqn:Hd; [|discriminate].
      apply fmap_Ok in H. destruct H as (r' & Hr' & ->).
      exists d, s', r'. auto.
    + left. do 3 (split; [reflexivity|]). now apply fmap_Ok in H.
Qed.

Lemma decode_encode s :
  js_string s ->
  forall r, encodeURIComponent s = Ok r -> decodeURIComponent r = Ok s.
Proof.
  induction s as [| a | a b l IHl IHbl] using list_ind2; intros Hs r Hr.
  - cbn in Hr. injection Hr as <-. reflexivity.
  - inversion Hs as [|? ? Ha _]; subst.
    apply encode_head in Hr.
    destruct Hr as [(Hu & r' & Hr' & ->)
                   |[(Hu & Hl & Ht & r' & Hr' & ->)
                    |(Hu & Hl & d & s' & r' & Hs' & _)]];
      [| |discriminate]; cbn in Hr'; injection Hr' as <-.
    + rewrite decode_unit by exact Hu. reflexivity.
    + rewrite decode_escape by (now apply unit_scalar).
      cbn. rewrite utf16_unit by (unfold code_unit in Ha; lia). reflexivity.
  - inversion Hs as [|? ? Ha Hbl]; subst.
    inversion Hbl as [|? ? Hb Hl']; subst.
    apply encode_head in Hr.
    destruct Hr as [(Hu & r' & Hr' & ->)
                   |[(Hu & Hl & Ht & r' & Hr' & ->)
                    |(Hu & Hl & d & s' & r' & Hs' & Hd & Hr' & ->)]].
    + rewrite decode_unit, (IHbl Hbl r' Hr') by exact Hu. reflexivity.
    + rewrite decode_escape, (IHbl Hbl r' Hr') by (now apply unit_scalar).
      cbn. rewrite utf16_unit by (unfold code_unit in Ha; lia). reflexivity.
    + injection Hs' as <- <-.
      rewrite decode_escape, (IHl Hl' r' Hr') by (now apply pair_scalar).
      cbn. rewrite utf16_pair by assumption. reflexivity.
Qed.

Lemma encode_no_slash s :
  js_string s ->
  forall r, encodeURIComponent s = Ok r -> ~ In slash r.
Proof.
  assert (Hesc : forall cp r, Spec.scalar cp -> ~ In slash r ->
                              ~ In slash (escape (utf8 cp) ++ r)).
  { intros cp r Hcp Hr Hin. apply in_app_or in Hin. destruct Hin as [Hin|Hin].
    - revert Hin. apply escape_no_slash, utf8_octets.
      unfold Spec.scalar in Hcp. lia.
    - auto. }
  assert (Hunit : forall c r, unescaped c = true -> ~ In slash r ->
                              ~ In slash (c :: r)).
  { intros c r Hc Hr [Hin|Hin]; [|auto].
    apply unescaped_ascii in Hc. unfold slash in Hin. lia. }
  induction s as [| a | a b l IHl IHbl] using list_ind2; intros Hs r Hr.
  - cbn in Hr. injection Hr as <-. intros [].
  - inversion Hs as [|? ? Ha _]; subst.
    apply encode_head in Hr.
    destruct Hr as [(Hu & r' & Hr' & ->)
                   |[(Hu & Hl & Ht & r' & Hr' & ->)
                    |(Hu & Hl & d & s' & r' & Hs' & _)]];
      [| |discriminate]; cbn in Hr'; injection Hr' as <-.
    + apply Hunit; [exact Hu | intros []].
    + apply Hesc; [now apply unit_scalar | intros []].
  - inversion Hs as [|? ? Ha Hbl]; subst.
    inversion Hbl as [|? ? Hb Hl']; subst.
    apply encode_head in Hr.
    destruct Hr as [(Hu & r' & Hr' & ->)
                   |[(Hu & Hl & Ht & r' & Hr' & ->)
                    |(Hu & Hl & d & s' & r' & Hs' & Hd & Hr' & ->)]].
    + apply Hunit; [exact Hu | now apply IHbl].
    + apply Hesc; [now apply unit_scalar | now apply IHbl].
    + injection Hs' as <- <-.
      apply Hesc; [now apply pair_scalar | now apply IHl].
Qed.

(** ** [map] with a callback that may throw *)

Lemma mapM_Forall2 {A B} (f : A -> Result B) l l' :
  mapM f l = Ok l' <-> Forall2 (fun x y => f x = Ok y) l l'.
Proof.
  revert l'. induction l as [|x l IH]; intros l'; cbn.
  - split.
    + intros H. injection H as <-. constructor.
    + intros H. inversion H. reflexivity.
  - split.
    + destruct (f x) as [y|e] eqn:Hx; cbn; [|discriminate].
      intros H. apply fmap_Ok in H. destruct H as (ys & Hys & ->).
      constructor; [exact Hx | now apply IH].
    + intros H. inversion H as [|? y ? ys Hx Hys]; subst.
      rewrite Hx. cbn. apply IH in Hys. now rewrite Hys.
Qed.

Lemma in_join sep seg segs c :
  In seg segs -> In c seg -> In c (join sep segs).
Proof.
  induction segs as [|x l IH]; intros Hseg Hc; [destruct Hseg|].
  destruct l as [|y l].
  - destruct Hseg as [->|[]]. exact Hc.
  - rewrite join_cons. apply in_or_app. destruct Hseg as [->|Hseg].
    + now left.
    + right. right. now apply IH.
Qed.

Lemma split_js_string sep s :
  js_string s -> Forall js_string (split sep s).
Proof.
  unfold js_string. rewrite !Forall_forall. intros Hs seg Hseg.
  apply Forall_forall. intros c Hc. apply Hs.
  rewrite <- (join_split sep s). now apply in_join with seg.
Qed.

(** ** The filename round trip *)

Lemma encoded_segments f r :
  js_string f ->
  getUrlEncodedFilename f = Ok r ->
  Forall2 (fun seg enc => encodeURIComponent seg = Ok enc)
          (split slash f) (split slash r).
Proof.
  intros Hf Hr. unfold getUrlEncodedFilename in Hr.
  apply fmap_Ok in Hr. destruct Hr as (encs & Hencs & ->).
  apply mapM_Forall2 in Hencs.
  rewrite split_join; [exact Hencs | |].
  - pose proof (split_nonempty slash f) as Hne.
    inversion Hencs; subst; congruence.
  - pose proof (split_js_string slash f Hf) as Hjs.
    clear Hf. induction Hencs as [|seg enc segs encs Henc _ IH];
      constructor; inversion Hjs; subst.
    + now apply encode_no_slash with seg.
    + now apply IH.
Qed.

Lemma decodeFilename_encoded f r :
  js_string f -> getUrlEncodedFilename f = Ok r ->
  Spec.decodeFilename r = Ok f.
Proof.
  intros Hf Hr. pose proof (encoded_segments f r Hf Hr) as H.
  unfold Spec.decodeFilename.
  assert (Hdec : mapM decodeURIComponent (split slash r) = Ok (split slash f)).
  { apply mapM_Forall2.
    pose proof (split_js_string slash f Hf) as Hjs.
    induction H as [|seg enc segs encs Henc _ IH]; constructor;
      inversion Hjs; subst.
    - now apply decode_encode.
    - now apply IH. }
  rewrite Hdec. cbn. now rewrite join_split.
Qed.

(** ** When the encoding returns *)

Lemma fmap_returns {A B} (f : A -> B) (x : Result A) :
  (exists b, fmap f x = Ok b) <-> (exists a, x = Ok a).
Proof.
  destruct x as [a|e]; cbn; split; intros [y Hy]; try discriminate; eauto.
Qed.

Lemma surrogate_kinds c :
  (unescaped c = true -> is_lead c = false /\ is_trail c = false)
  /\ (is_lead c = true -> is_trail c = false).
Proof.
  split.
  - intros H. apply unescaped_ascii in H. unfold is_lead, is_trail.
    split; zbool; reflexivity.
  - unfold is_lead, is_trail. intros H.
    zbool_in H; try discriminate; zbool; reflexivity.
Qed.

Lemma encode_returns s :
  (exists r, encodeURIComponent s = Ok r) <-> Spec.well_formed s = true.
Proof.
  induction s as [| a | a b l IHl IHbl] using list_ind2.
  - cbn. split; eauto.
  - destruct (surrogate_kinds a) as [Hu Hlt].
    cbn. destruct (unescaped a).
    + destruct Hu as [-> ->]; [reflexivity|]. cbn. split; eauto.
    + destruct (is_lead a).
      * rewrite Hlt by reflexivity. cbn.
        split; [intros [r Hr]; discriminate | discriminate].
      * destruct (is_trail a); cbn; split; eauto;
          try discriminate; intros [r Hr]; discriminate.
  - destruct (surrogate_kinds a) as [Hu Hlt].
    cbn [encodeURIComponent Spec.well_formed] in *.
    destruct (unescaped a).
    + destruct Hu as [-> ->]; [reflexivity|].
      rewrite fmap_returns. exact IHbl.
    + destruct (is_lead a).
      * rewrite Hlt by reflexivity.
        destruct (is_trail b); cbn [andb].
        -- rewrite fmap_returns. exact IHl.
        -- split; [intros [r Hr]; discriminate | discriminate].
      * destruct (is_trail a); cbn [negb andb].
        -- split; [intros [r Hr]; discriminate | discriminate].
        -- rewrite fmap_returns. exact IHbl.
Qed.

Lemma split_cons sep c s :
  split sep (c :: s)
  = if c =? sep then [] :: split sep s
    else match split sep s with
         | seg :: segs => (c :: seg) :: segs
         | [] => [[c]]
         end.
Proof. reflexivity. Qed.

Lemma well_formed_cons c s :
  Spec.well_formed (c :: s)
  = if is_lead c then
      match s with
      | d :: s' => is_trail d && Spec.well_formed s'
      | [] => false
      end
    else negb (is_trail c) && Spec.well_formed s.
Proof. reflexivity. Qed.

Lemma split_well_formed f :
  forallb Spec.well_formed (split slash f) = Spec.well_formed f.
Proof.
  assert (Hs : is_lead slash = false /\ is_trail slash = false)
    by (split; reflexivity).
  destruct Hs as [Hsl Hst].
  induction f as [| a | a b l IHl IHbl] using list_ind2.
  - reflexivity.
  - rewrite split_cons. destruct (Z.eqb_spec a slash) as [->|Hne].
    + reflexivity.
    + cbn [split forallb]. now rewrite andb_true_r.
  - rewrite split_cons, (well_formed_cons a).
    destruct (Z.eqb_spec a slash) as [->|Ha].
    + rewrite Hsl, Hst. cbn [forallb negb andb]. exact IHbl.
    + destruct (is_lead a) eqn:Hl.
      * rewrite split_cons. destruct (Z.eqb_spec b slash) as [->|Hb].
        -- rewrite Hst. cbn [forallb andb].
           rewrite (well_formed_cons a), Hl. reflexivity.
        -- pose proof (split_nonempty slash l) as Hne.
           destruct (split slash l) as [|seg segs]; [congruence|].
           cbn [forallb] in *. rewrite (well_formed_cons a), Hl.
           rewrite <- IHl. now rewrite andb_assoc.
      * pose proof (split_nonempty slash (b :: l)) as Hne.
        destruct (split slash (b :: l)) as [|seg segs]; [congruence|].
        cbn [forallb] in *. rewrite (well_formed_cons a), Hl.
        rewrite <- IHbl. now rewrite andb_assoc.
Qed.

Lemma mapM_returns {A B} (f : A -> Result B) l :
  (exists l', mapM f l = Ok l') <-> Forall (fun x => exists y, f x = Ok y) l.
Proof.
  induction l as [|x l IH]; cbn.
  - split; [constructor | eauto].
  - split.
    + intros [l' H]. destruct (f x) as [y|e] eqn:Hx; [|discriminate].
      cbn in H. constructor; [eauto|]. apply IH.
      apply (fmap_returns (cons y)). eauto.
    + intros H. inversion H as [|? ? [y Hy] Hl]; subst.
      apply IH in Hl. destruct Hl as [l' Hl']. rewrite Hy, Hl'. cbn. eauto.
Qed.

Lemma getUrlEncodedFilename_returns f :
  (exists r, getUrlEncodedFilename f = Ok r) <-> Spec.well_formed f = true.
Proof.
  unfold getUrlEncodedFilename.
  rewrite fmap_returns, mapM_returns, <- split_well_formed, forallb_forall,
    Forall_forall.
  split; intros H seg Hseg; apply encode_returns, H, Hseg.
Qed.

Lemma encode_throws s e : encodeURIComponent s = Throw e -> e = URIError.
Proof.
  induction s as [| a | a b l IHl IHbl] using list_ind2; cbn; intros H.
  - discriminate.
  - destruct (unescaped a); [discriminate|].
    destruct (is_trail a); [congruence|].
    destruct (is_lead a); [congruence | discriminate].
  - cbn [encodeURIComponent] in *.
    assert (Hf : forall (g : jsstring -> jsstring) x,
               fmap g x = Throw e -> x = Throw e)
      by (intros g [y|e']; cbn; congruence).
    destruct (unescaped a); [now apply Hf in H; auto|].
    destruct (is_trail a); [congruence|].
    destruct (is_lead a).
    + destruct (is_trail b); [apply Hf in H; auto | congruence].
    + apply Hf in H. auto.
Qed.

Lemma getUrlEncodedFilename_throws f e :
  getUrlEncodedFilename f = Throw e -> e = URIError.
Proof.
  unfold getUrlEncodedFilename.
  induction (split slash f) as [|seg segs IH]; cbn; [discriminate|].
  destruct (encodeURIComponent seg) as [enc|e'] eqn:Hseg; cbn.
  - destruct (mapM encodeURIComponent segs) as [encs|e'']; cbn in *;
      [discriminate|]. intros H. apply IH. congruence.
  - intros H. injection H as <-. now apply encode_throws with seg.
Qed.

Lemma getUrlEncodedFilename_ill_formed f :
  getUrlEncodedFilename f = Throw URIError -> Spec.well_formed f = false.
Proof.
  intros H. destruct (Spec.well_formed f) eqn:Hwf; [|reflexivity].
  apply getUrlEncodedFilename_returns in Hwf. destruct Hwf as [r Hr].
  congruence.
Qed.

(* ------------------------------------------------------------------ *)
(** ** The filename encoding *)
(* ------------------------------------------------------------------ *)

(** C4: for every filename, [getUrlEncodedFilename] returns [r] exactly
    when [r] is the filename with each ["/"]-separated segment
    percent-encoded on its own and the encoded segments rejoined with ["/"];
    the segments of the result are then the encoded segments of the
    filename, in order; and ["a b/c#d"] becomes ["a%20b/c%23d"]. *)
Theorem getUrlEncodedFilename_segmentwise :
  forall filename,
    (forall r, getUrlEncodedFilename filename = Ok r
               <-> Spec.encoded_path filename r)
    /\ (js_string filename ->
        forall r, getUrlEncodedFilename filename = Ok r ->
          Forall2 (fun seg enc => encodeURIComponent seg = Ok enc)
                  (split slash filename) (split slash r))
    /\ getUrlEncodedFilename (lit "a b/c#d") = Ok (lit "a%20b/c%23d").
Proof.
  intros filename. split; [|split].
  - intros r. split.
    + intros H. unfold getUrlEncodedFilename in H.
      apply fmap_Ok in H. destruct H as (encs & Hencs & ->).
      exists (split slash filename), encs.
      split; [now apply segments_split|].
      split; [now apply mapM_Forall2 | reflexivity].
    + intros (segs & encs & Hsegs & Hencs & ->).
      apply segments_split in Hsegs. subst segs.
      apply mapM_Forall2 in Hencs.
      unfold getUrlEncodedFilename. now rewrite Hencs.
  - intros Hjs r Hr. now apply encoded_segments.
  - reflexivity.
Qed.

(** The percent-encoding of a segment is [encodeURIComponent], which throws
    a [URIError] on a surrogate that is not part of a pair; so does
    [getUrlEncodedFilename], and on no other filename. *)
Lemma getUrlEncodedFilename_domain filename :
  (Spec.well_formed filename = true ->
   exists r, getUrlEncodedFilename filename = Ok r
             /\ Spec.encoded_path filename r)
  /\ (Spec.well_formed filename = false ->
      getUrlEncodedFilename filename = Throw URIError).
Proof.
  split.
  - intros Hwf. apply getUrlEncodedFilename_returns in Hwf.
    destruct Hwf as [r Hr]. exists r. split; [exact Hr|].
    unfold getUrlEncodedFilename in Hr.
    apply fmap_Ok in Hr. destruct Hr as (encs & Hencs & ->).
    exists (split slash filename), encs.
    split; [now apply segments_split|].
    split; [now apply mapM_Forall2 | reflexivity].
  - intros Hwf. destruct (getUrlEncodedFilename filename) as [r|e] eqn:Hr.
    + assert (Spec.well_formed filename = true)
        by (apply getUrlEncodedFilename_returns; eauto).
      congruence.
    + f_equal. now apply getUrlEncodedFilename_throws with filename.
Qed.

(** C10: the encoding is lossless. For every result of
    [getUrlEncodedFilename], splitting it on ["/"], percent-decoding each
    segment and rejoining with ["/"] gives the filename back; the result has
    as many segments as the filename (no ["/"] is added), and each of its
    segments decodes to the segment it encodes. There is a result whenever
    no surrogate of the filename is unpaired. *)
Theorem getUrlEncodedFilename_lossless :
  forall filename,
    js_string filename ->
    (Spec.well_formed filename = true ->
     exists r, getUrlEncodedFilename filename = Ok r)
    /\ forall r,
        getUrlEncodedFilename filename = Ok r ->
        Spec.decodeFilename r = Ok filename
        /\ List.length (split slash r) = List.length (split slash filename)
        /\ Forall2 (fun seg enc => decodeURIComponent enc = Ok seg)
                   (split slash filename) (split slash r).
Proof.
  intros filename Hjs. split; [apply getUrlEncodedFilename_returns|].
  intros r Hr. split; [now apply decodeFilename_encoded|].
  pose proof (encoded_segments filename r Hjs Hr) as H.
  pose proof (split_js_string slash filename Hjs) as Hsegs.
  split.
  - symmetry. eapply Forall2_length, H.
  - induction H as [|seg enc segs encs Henc _ IH]; constructor;
      inversion Hsegs; subst.
    + now apply decode_encode.
    + now apply IH.
Qed.

Lemma getUrlEncodedFilename_lossless_witness :
  js_string [97; 32; 98; 47; 8364; 47; 55357; 56832]
  /\ getUrlEncodedFilename [97; 32; 98; 47; 8364; 47; 55357; 56832]
     = Ok (lit "a%20b/%E2%82%AC/%F0%9F%98%80")
  /\ Spec.decodeFilename (lit "a%20b/%E2%82%AC/%F0%9F%98%80")
     = Ok [97; 32; 98; 47; 8364; 47; 55357; 56832].
Proof.
  assert (Hjs : js_string [97; 32; 98; 47; 8364; 47; 55357; 56832])
    by (repeat constructor; unfold code_unit; lia).
  split; [exact Hjs|]. split; [reflexivity|].
  apply (proj2 (getUrlEncodedFilename_lossless
                  [97; 32; 98; 47; 8364; 47; 55357; 56832] Hjs)
               (lit "a%20b/%E2%82%AC/%F0%9F%98%80") eq_refl).
Defined.

(* ------------------------------------------------------------------ *)
(** ** The calls of the session client *)
(* ------------------------------------------------------------------ *)

(** [sha1] of a Buffer hashes the bytes of the Buffer. *)
Lemma sha1_of_buffer (data : Buffer) :
  sha1 (OfBuffer data) = Sha1.hex (Sha1.hash (map octet data)).
Proof. reflexivity. Qed.

#[local] Opaque sha1 getUrlEncodedFilename base64 utf8_bytes.

Lemma skipn_log {A} (log new : list A) :
  skipn (List.length log) (log ++ new) = new.
Proof. induction log as [|x log IH]; [reflexivity | exact IH]. Qed.

Lemma skipn_all_log {A} (log : list A) : skipn (List.length log) log = [].
Proof. induction log as [|x log IH]; [reflexivity | exact IH]. Qed.

(** [uploadFile] sends one request when the filename can be encoded, and
    none when it cannot. *)
Lemma uploadFile_issued o srv st log :
  match getUrlEncodedFilename (B2.uf_filename o) with
  | Ok enc =>
      exists c, issued (B2.uploadFile o) srv st log = [c]
                /\ sent_header (lit "X-Bz-File-Name") c = Some (HStr enc)
  | Throw e =>
      issued (B2.uploadFile o) srv st log = []
      /\ result (B2.uploadFile o srv st log) = Throw e
  end.
Proof.
  unfold issued, calls, result, B2.uploadFile, mbind, lift, send.
  destruct (getUrlEncodedFilename (B2.uf_filename o)) as [enc|e].
  - eexists. cbn [snd]. rewrite skipn_log. split; reflexivity.
  - cbn [snd fst]. rewrite skipn_all_log. split; reflexivity.
Qed.

Lemma uploadFile_sends_one o srv st log :
  Spec.well_formed (B2.uf_filename o) = true ->
  exists c, issued (B2.uploadFile o) srv st log = [c].
Proof.
  intros Hwf. apply getUrlEncodedFilename_returns in Hwf.
  destruct Hwf as [enc Henc].
  pose proof (uploadFile_issued o srv st log) as H. rewrite Henc in H.
  destruct H as (c & Hc & _). eauto.
Qed.

Ltac run_uploadFile o :=
  unfold issued, calls, B2.uploadFile, mbind, lift, send;
  destruct (getUrlEncodedFilename (B2.uf_filename o)) as [?enc|?e];
  cbn [snd];
  [rewrite skipn_log | rewrite skipn_all_log].

(** C3 (amended): the [X-Bz-Content-Sha1] header of an [uploadFile] request
    is the caller's hash when a non-empty hash is supplied, and the SHA-1 hex
    digest of the bytes of the payload when no hash or the empty string is
    supplied: the forty hexadecimal digits of the FIPS 180-4 hash of exactly
    those bytes (for the three bytes of ["abc"],
    [a9993e364706816aba3e25717850c26c9cd0d89d]). A request is sent whenever
    the filename can be encoded. *)
Theorem uploadFile_content_sha1 :
  forall o srv st log,
    Forall (fun c =>
              (forall h, B2.uf_hash o = Some h -> h <> [] ->
                 sent_header (lit "X-Bz-Content-Sha1") c = Some (HStr h))
              /\ (B2.uf_hash o = None \/ B2.uf_hash o = Some [] ->
                  sent_header (lit "X-Bz-Content-Sha1") c
                  = Some (HStr (Sha1.hex
                                  (Sha1.hash (map octet (B2.uf_data o)))))))
           (issued (B2.uploadFile o) srv st log)
    /\ (Spec.well_formed (B2.uf_filename o) = true ->
        exists c, issued (B2.uploadFile o) srv st log = [c])
    /\ (B2.uf_data o = [x61; x62; x63]%byte ->
        B2.uf_hash o = None \/ B2.uf_hash o = Some [] ->
        Forall (fun c =>
                  sent_header (lit "X-Bz-Content-Sha1") c
                  = Some (HStr
                            (lit "a9993e364706816aba3e25717850c26c9cd0d89d")))
               (issued (B2.uploadFile o) srv st log)).
Proof.
  intros o srv st log.
  assert (Hdigest :
            Forall (fun c =>
                      B2.uf_hash o = None \/ B2.uf_hash o = Some [] ->
                      sent_header (lit "X-Bz-Content-Sha1") c
                      = Some (HStr (Sha1.hex
                                      (Sha1.hash
                                         (map octet (B2.uf_data o))))))
                   (issued (B2.uploadFile o) srv st log)).
  { run_uploadFile o; constructor; [|constructor].
    unfold sent_header, headers_of. cbn.
    intros [-> | ->]; cbn [or_else truthy]; now rewrite sha1_of_buffer. }
  split; [|split; [apply uploadFile_sends_one|]].
  - assert (Hhash :
              Forall (fun c =>
                        forall h, B2.uf_hash o = Some h -> h <> [] ->
                          sent_header (lit "X-Bz-Content-Sha1") c
                          = Some (HStr h))
                     (issued (B2.uploadFile o) srv st log)).
    { run_uploadFile o; constructor; [|constructor].
      unfold sent_header, headers_of. cbn.
      intros h -> Hh. destruct h; [congruence | reflexivity]. }
    rewrite Forall_forall in *. intros c Hc. split; auto.
  - intros Hdata Hnone. rewrite Hdata in Hdigest.
    eapply Forall_impl; [|exact Hdigest]. cbn beta. intros c Hc.
    rewrite (Hc Hnone). vm_compute. reflexivity.
Qed.

(** C3, as stated, fails: a caller who supplies the empty string as hash
    gets the digest of the payload in the header, not the hash supplied. *)
Lemma uploadFile_empty_hash_replaced :
  B2.uf_hash (Fixtures.file (lit "a.txt") [] (Some [])) = Some []
  /\ map (sent_header (lit "X-Bz-Content-Sha1"))
         (issued (B2.uploadFile (Fixtures.file (lit "a.txt") [] (Some [])))
                 (Fixtures.accepting Null) B2.new [])
     = [Some (HStr (lit "da39a3ee5e6b4b0d3255bfef95601890afd80709"))]
  /\ Some (HStr (lit "da39a3ee5e6b4b0d3255bfef95601890afd80709"))
     <> Some (HStr []).
Proof.
  split; [reflexivity|]. split; [vm_compute; reflexivity | discriminate].
Qed.

(** C5: every [uploadPart] call sends one request whose
    [X-Bz-Content-Sha1] header is the SHA-1 hex digest of the bytes of the
    part payload, whatever else the caller passes: the forty hexadecimal
    digits of the FIPS 180-4 hash of exactly those bytes (for the three
    bytes of ["abc"], [a9993e364706816aba3e25717850c26c9cd0d89d]); and whose
    [X-Bz-Part-Number] header is the caller's [partNumber] as given, for
    every number. *)
Theorem uploadPart_headers :
  forall o srv st log,
    exists c,
      issued (B2.uploadPart o) srv st log = [c]
      /\ sent_header (lit "X-Bz-Content-Sha1") c
         = Some (HStr (Sha1.hex (Sha1.hash (map octet (B2.up_data o)))))
      /\ sent_header (lit "X-Bz-Part-Number") c
         = Some (HNum (B2.up_partNumber o))
      /\ (B2.up_data o = [x61; x62; x63]%byte ->
          sent_header (lit "X-Bz-Content-Sha1") c
          = Some (HStr (lit "a9993e364706816aba3e25717850c26c9cd0d89d"))).
Proof.
  intros o srv st log. unfold issued, calls, B2.uploadPart, send. cbn [snd].
  rewrite skipn_log. eexists. split; [reflexivity|].
  unfold sent_header, headers_of. cbn. rewrite sha1_of_buffer.
  split; [reflexivity|]. split; [reflexivity|].
  intros ->. vm_compute. reflexivity.
Qed.

(** C6: the request of [uploadFile] and of [uploadPart] goes through the
    module-level [axios], to the ticket's [uploadUrl], with the ticket's
    [uploadAuthToken] as [Authorization]; it is the same request whatever
    the state of the session (its token included). *)
Theorem uploads_bypass_session :
  forall srv log st st',
    (forall o,
        issued (B2.uploadFile o) srv st log
        = issued (B2.uploadFile o) srv st' log
        /\ Forall (fun c =>
                     via c = Static
                     /\ url c = B2.uf_uploadUrl o
                     /\ sent_header (lit "Authorization") c
                        = Some (HStr (B2.uf_uploadAuthToken o)))
                  (issued (B2.uploadFile o) srv st log)
        /\ (Spec.well_formed (B2.uf_filename o) = true ->
            exists c, issued (B2.uploadFile o) srv st log = [c]))
    /\ (forall o,
           issued (B2.uploadPart o) srv st log
           = issued (B2.uploadPart o) srv st' log
           /\ exists c,
               issued (B2.uploadPart o) srv st log = [c]
               /\ via c = Static
               /\ url c = B2.up_uploadUrl o
               /\ sent_header (lit "Authorization") c
                  = Some (HStr (B2.up_uploadAuthToken o))).
Proof.
  intros srv log st st'. split; intros o.
  - split; [|split; [|apply uploadFile_sends_one]].
    + run_uploadFile o; rewrite ?skipn_log, ?skipn_all_log; reflexivity.
    + run_uploadFile o; constructor; [|constructor].
      repeat split.
  - unfold issued, calls, B2.uploadPart, send. cbn [snd]. rewrite !skipn_log.
    split; [reflexivity|]. eexists. repeat split.
Qed.

(** C7: every request of [uploadFile] and of [uploadPart] is configured
    with [maxRedirects: 0]. *)
Theorem uploads_disable_redirects :
  forall srv st log,
    (forall o,
        Forall (fun c => max_redirects c = Some 0%float)
               (issued (B2.uploadFile o) srv st log)
        /\ (Spec.well_formed (B2.uf_filename o) = true ->
            exists c, issued (B2.uploadFile o) srv st log = [c]))
    /\ (forall o,
           exists c, issued (B2.uploadPart o) srv st log = [c]
                     /\ max_redirects c = Some 0%float).
Proof.
  intros srv st log. split; intros o.
  - split; [|apply uploadFile_sends_one].
    run_uploadFile o; constructor; [reflexivity | constructor].
  - unfold issued, calls, B2.uploadPart, send. cbn [snd]. rewrite skipn_log.
    eexists. split; reflexivity.
Qed.

Lemma eqb_refl s : eqb s s = true.
Proof.
  induction s as [|c s IH]; [reflexivity|].
  cbn. now rewrite Z.eqb_refl, IH.
Qed.

Lemma get_set_prop k v o : get_prop k (set_prop k v o) = v.
Proof.
  induction o as [|[k' v'] o IH]; cbn.
  - now rewrite eqb_refl.
  - destruct (eqb k k') eqn:E; cbn; [now rewrite eqb_refl | now rewrite E].
Qed.

(** C8: [getDownloadAuthorization] posts the object it is given as the
    request body, so the [validDurationInSeconds] of the body is the
    caller's, whatever its value; no range is checked and nothing is
    clamped. With an authorized session exactly one request is sent. *)
Theorem getDownloadAuthorization_passthrough :
  forall data srv st log,
    Forall (fun c =>
              body c = Some (JsonBody data)
              /\ body_prop (lit "validDurationInSeconds") c
                 = get_prop (lit "validDurationInSeconds") data)
           (issued (B2.getDownloadAuthorization data) srv st log)
    /\ (forall i, B2.axios st = Some i ->
          exists c,
            issued (B2.getDownloadAuthorization data) srv st log = [c]
            /\ via c = Created i
            /\ url c = lit "/b2_get_download_authorization")
    /\ (forall v i rest, B2.axios st = Some i ->
          map (body_prop (lit "validDurationInSeconds"))
              (issued
                 (B2.getDownloadAuthorization
                    (set_prop (lit "validDurationInSeconds") (VNum v) rest))
                 srv st log)
          = [VNum v]).
Proof.
  intros data srv st log.
  unfold issued, calls, B2.getDownloadAuthorization, B2.post, B2.this_axios,
    mbind, get, ret, throw, send.
  destruct (B2.axios st) as [i|] eqn:Hax; cbn [snd].
  - rewrite !skipn_log. split; [|split].
    + constructor; [|constructor]. split; reflexivity.
    + intros i' Hi'. injection Hi' as <-. eexists. repeat split.
    + intros v i' rest _. rewrite skipn_log. cbn [map]. unfold body_prop.
      cbn [body]. now rewrite get_set_prop.
  - rewrite !skipn_all_log. split; [constructor|].
    split; intros; discriminate.
Qed.

(* ------------------------------------------------------------------ *)
(** ** Calls before [authorize] *)
(* ------------------------------------------------------------------ *)

(** C2 (amended): on a client whose [axios] field is still [undefined],
    every operation that goes through the session transport, that is every
    operation but [authorize], [uploadFile] and [uploadPart], throws and
    sends nothing, and the client is unchanged. The exception is the
    [TypeError] of reading a property of [undefined]; for
    [downloadFileByName] with a filename that cannot be encoded it is the
    [URIError] of the encoding, which comes first. [uploadPart], and
    [uploadFile] when the filename can be encoded, send their request all
    the same and return what the server answers. *)
Theorem unauthorized_session_calls_fail :
  forall srv st log,
    B2.axios st = None ->
    (forall op,
        B2.through_session op = true ->
        calls (B2.invoke op srv st log) = log
        /\ final (B2.invoke op srv st log) = st
        /\ (result (B2.invoke op srv st log) = Throw (TypeError (lit "post"))
            \/ result (B2.invoke op srv st log)
               = Throw (TypeError (lit "get"))
            \/ exists o,
                op = B2.DownloadFileByName o
                /\ Spec.well_formed (B2.dn_fileName o) = false
                /\ result (B2.invoke op srv st log) = Throw URIError))
    /\ (forall o,
          exists c,
            calls (B2.invoke (B2.UploadPart o) srv st log) = log ++ [c]
            /\ result (B2.invoke (B2.UploadPart o) srv st log)
               = fmap B2.Data (respond srv log c))
    /\ (forall o,
          Spec.well_formed (B2.uf_filename o) = true ->
          exists c,
            calls (B2.invoke (B2.UploadFile o) srv st log) = log ++ [c]
            /\ result (B2.invoke (B2.UploadFile o) srv st log)
               = fmap B2.Data (respond srv log c)).
Proof.
  intros srv st log Hax. split; [|split].
  - intros op Hop.
    destruct op; try discriminate Hop;
      unfold calls, final, result, B2.invoke, mmap, B2.createBucket,
        B2.deleteBucket, B2.listBuckets, B2.updateBucket, B2.getUploadUrl,
        B2.listFileNames, B2.listFileVersions, B2.hideFile, B2.getFileInfo,
        B2.deleteFileVersion, B2.getDownloadAuthorization,
        B2.downloadFileByName, B2.downloadFileById, B2.startLargeFile,
        B2.getUploadPartUrl, B2.finishLargeFile, B2.cancelLargeFile, B2.post,
        B2.this_axios, mbind, lift, get, ret, throw;
      try (rewrite Hax; cbn [fst snd]; auto; fail).
    destruct (getUrlEncodedFilename (B2.dn_fileName o)) as [enc|e] eqn:Henc.
    + rewrite Hax. cbn [fst snd]. auto.
    + cbn [fst snd]. do 2 (split; [reflexivity|]). right. right.
      exists o. split; [reflexivity|].
      assert (e = URIError)
        by (now apply getUrlEncodedFilename_throws in Henc).
      subst e. split; [|reflexivity].
      now apply getUrlEncodedFilename_ill_formed.
  - intros o.
    unfold calls, result, B2.invoke, mmap, B2.uploadPart, mbind, send, ret.
    match goal with
    | |- context [respond srv log ?c] =>
        exists c; destruct (respond srv log c)
    end; split; reflexivity.
  - intros o Hwf. apply getUrlEncodedFilename_returns in Hwf.
    destruct Hwf as [enc Henc].
    unfold calls, result, B2.invoke, mmap, B2.uploadFile, mbind, lift, send,
      ret.
    rewrite Henc.
    match goal with
    | |- context [respond srv log ?c] =>
        exists c; destruct (respond srv log c)
    end; split; reflexivity.
Qed.

Lemma unauthorized_session_calls_fail_witness :
  B2.axios B2.new = None
  /\ B2.through_session (B2.CreateBucket (lit "photos") (lit "allPrivate"))
     = true
  /\ calls (B2.invoke (B2.CreateBucket (lit "photos") (lit "allPrivate"))
                      (Fixtures.accepting Null) B2.new [])
     = [].
Proof.
  split; [reflexivity|]. split; [reflexivity|].
  apply (proj1 (unauthorized_session_calls_fail
                  (Fixtures.accepting Null) B2.new [] eq_refl)
               (B2.CreateBucket (lit "photos") (lit "allPrivate")) eq_refl).
Defined.

(** C2, as stated, fails: [uploadPart] on a client that was never
    authorized sends its request and returns the server's answer. *)
Lemma uploadPart_before_authorize :
  B2.is_authorize (B2.UploadPart (Fixtures.part 1%float [])) = false
  /\ B2.axios B2.new = None
  /\ result (B2.invoke (B2.UploadPart (Fixtures.part 1%float []))
                       (Fixtures.accepting Null) B2.new [])
     = Ok (B2.Data (VObj []))
  /\ map url (calls (B2.invoke (B2.UploadPart (Fixtures.part 1%float []))
                               (Fixtures.accepting Null) B2.new []))
     = [lit "https://pod.backblaze.com/part"].
Proof. repeat split. Qed.

(* ------------------------------------------------------------------ *)
(** ** The facade's [authorize] *)
(* ------------------------------------------------------------------ *)

Lemma eqb_eq s t : eqb s t = true <-> s = t.
Proof.
  revert t. induction s as [|c s IH]; intros [|d t]; cbn;
    try (split; [discriminate | congruence]); [tauto|].
  rewrite andb_true_iff, Z.eqb_eq, IH. split.
  - intros [-> ->]. reflexivity.
  - intros H. injection H as -> ->. auto.
Qed.

(** What a successful [authorize] leaves in the session client. *)
Lemma authorize_session a k srv st log resp :
  result (B2.authorize a k srv st log) = Ok resp ->
  final (B2.authorize a k srv st log)
  = {| B2.axios :=
         Some {| baseURL := apiUrl resp ++ B2.API_VERSION_URL;
                 defaults := [(lit "Authorization",
                               HStr (authorizationToken resp))] |};
       B2.accountId := Some a;
       B2.downloadUrl := Some (auth_downloadUrl resp) |}.
Proof.
  unfold result, final, B2.authorize, mbind, send, get, put, ret.
  destruct (authorize_account srv log _) as [r|e]; cbn [fst snd];
    intros H; [|discriminate].
  injection H as ->. reflexivity.
Qed.

(** The facade's [authorize], after the session client's has returned
    [resp]. *)
Lemma facade_authorize_run o srv st log resp :
  result (B2.authorize (B2Bucket.ao_accountId o) (B2Bucket.ao_applicationKey o)
                       srv B2.new log) = Ok resp ->
  result (B2Bucket.authorize o srv st log)
  = (if negb (truthy_field (allowed_bucketId (allowed resp)))
        || strict_neq (allowed_bucketId (allowed resp)) (B2Bucket.ao_bucketId o)
     then Throw (Error (B2Bucket.mismatch (allowed_bucketId (allowed resp))))
     else Ok resp)
  /\ final (B2Bucket.authorize o srv st log)
     = {| B2Bucket.bucketId := Some (B2Bucket.ao_bucketId o);
          B2Bucket.b2 :=
            Some (final (B2.authorize (B2Bucket.ao_accountId o)
                                      (B2Bucket.ao_applicationKey o)
                                      srv B2.new log)) |}.
Proof.
  unfold B2Bucket.authorize, B2Bucket.this_b2, mbind, get, put.
  cbn [B2Bucket.b2 B2Bucket.bucketId].
  unfold result, final.
  destruct (B2.authorize _ _ srv B2.new log) as [[r c] log'].
  cbn [fst snd]. intros ->.
  destruct (negb _ || _); cbn [throw ret fst snd]; split; reflexivity.
Qed.

(** C1 (amended): once the session client's [authorize] has returned a
    response, the facade's [authorize] returns that response when the allowed
    bucket id is a non-empty string equal to the configured [bucketId], and
    throws when it is missing, [null], the empty string, or different from
    the configured one. *)
Theorem facade_authorize_checks_bucket :
  forall o srv st log resp,
    result (B2.authorize (B2Bucket.ao_accountId o)
                         (B2Bucket.ao_applicationKey o) srv B2.new log)
    = Ok resp ->
    (forall b,
        allowed_bucketId (allowed resp) = Str b -> b <> [] ->
        b = B2Bucket.ao_bucketId o ->
        result (B2Bucket.authorize o srv st log) = Ok resp)
    /\ (allowed_bucketId (allowed resp) = Missing
        \/ allowed_bucketId (allowed resp) = Null
        \/ allowed_bucketId (allowed resp) = Str []
        \/ allowed_bucketId (allowed resp) <> Str (B2Bucket.ao_bucketId o) ->
        result (B2Bucket.authorize o srv st log)
        = Throw (Error (B2Bucket.mismatch (allowed_bucketId (allowed resp))))).
Proof.
  intros o srv st log resp Hresp.
  destruct (facade_authorize_run o srv st log resp Hresp) as [-> _].
  split.
  - intros b -> Hb <-. destruct b as [|c b]; [congruence|].
    cbn [truthy_field truthy negb orb strict_neq].
    now rewrite eqb_refl.
  - intros [-> | [-> | [-> | Hne]]]; try reflexivity.
    destruct (allowed_bucketId (allowed resp)) as [| |b]; try reflexivity.
    cbn [strict_neq].
    destruct (eqb b (B2Bucket.ao_bucketId o)) eqn:E.
    + apply eqb_eq in E. congruence.
    + cbn [negb]. now rewrite orb_true_r.
Qed.

Lemma facade_authorize_checks_bucket_witness :
  result (B2.authorize (lit "acct") (lit "key")
                       (Fixtures.accepting (Str (lit "b1"))) B2.new [])
  = Ok (Fixtures.key_for (Str (lit "b1")))
  /\ result (B2Bucket.authorize (Fixtures.credentials (lit "b1"))
                                (Fixtures.accepting (Str (lit "b1")))
                                B2Bucket.new [])
     = Ok (Fixtures.key_for (Str (lit "b1"))).
Proof.
  split; [reflexivity|].
  apply (proj1 (facade_authorize_checks_bucket
                  (Fixtures.credentials (lit "b1"))
                  (Fixtures.accepting (Str (lit "b1")))
                  B2Bucket.new [] (Fixtures.key_for (Str (lit "b1")))
                  eq_refl)
               (lit "b1") eq_refl).
  - discriminate.
  - reflexivity.
Defined.

(** C1, as stated, fails: with an empty configured [bucketId] and an equal,
    empty allowed bucket id, the facade's [authorize] throws. *)
Lemma facade_authorize_rejects_equal_empty :
  result (B2.authorize (lit "acct") (lit "key")
                       (Fixtures.accepting (Str [])) B2.new [])
  = Ok (Fixtures.key_for (Str []))
  /\ allowed_bucketId (allowed (Fixtures.key_for (Str [])))
     = Str (B2Bucket.ao_bucketId (Fixtures.credentials []))
  /\ result (B2Bucket.authorize (Fixtures.credentials [])
                                (Fixtures.accepting (Str []))
                                B2Bucket.new [])
     = Throw (Error (B2Bucket.mismatch (Str []))).
Proof. repeat split. Qed.

(** C9: when the session client's [authorize] has returned and the allowed
    bucket id is missing, [null] or differs from the configured one, the
    facade's
    [authorize] throws, yet the facade already holds the supplied [bucketId]
    and a new session client that carries the session just granted: its
    state has changed although [authorize] reports an error. *)
Theorem facade_authorize_not_atomic :
  forall o srv st log resp,
    result (B2.authorize (B2Bucket.ao_accountId o)
                         (B2Bucket.ao_applicationKey o) srv B2.new log)
    = Ok resp ->
    allowed_bucketId (allowed resp) = Missing
    \/ allowed_bucketId (allowed resp) = Null
    \/ allowed_bucketId (allowed resp) <> Str (B2Bucket.ao_bucketId o) ->
    result (B2Bucket.authorize o srv st log)
    = Throw (Error (B2Bucket.mismatch (allowed_bucketId (allowed resp))))
    /\ B2Bucket.bucketId (final (B2Bucket.authorize o srv st log))
       = Some (B2Bucket.ao_bucketId o)
    /\ B2Bucket.b2 (final (B2Bucket.authorize o srv st log))
       = Some {| B2.axios :=
                   Some {| baseURL := apiUrl resp ++ B2.API_VERSION_URL;
                           defaults := [(lit "Authorization",
                                         HStr (authorizationToken resp))] |};
                 B2.accountId := Some (B2Bucket.ao_accountId o);
                 B2.downloadUrl := Some (auth_downloadUrl resp) |}.
Proof.
  intros o srv st log resp Hresp Hbad.
  destruct (facade_authorize_run o srv st log resp Hresp) as [Hr ->].
  rewrite (authorize_session _ _ _ _ _ _ Hresp), Hr.
  split; [|split; reflexivity].
  destruct Hbad as [-> | [-> | Hne]]; try reflexivity.
  destruct (allowed_bucketId (allowed resp)) as [| |b]; try reflexivity.
  cbn [strict_neq].
  destruct (eqb b (B2Bucket.ao_bucketId o)) eqn:E.
  - apply eqb_eq in E. congruence.
  - cbn [negb]. now rewrite orb_true_r.
Qed.

Lemma facade_authorize_not_atomic_witness :
  result (B2.authorize (lit "acct") (lit "key")
                       (Fixtures.accepting (Str (lit "b2"))) B2.new [])
  = Ok (Fixtures.key_for (Str (lit "b2")))
  /\ Str (lit "b2") <> Str (lit "b1")
  /\ B2Bucket.bucketId
       (final (B2Bucket.authorize (Fixtures.credentials (lit "b1"))
                                  (Fixtures.accepting (Str (lit "b2")))
                                  B2Bucket.new []))
     = Some (lit "b1").
Proof.
  split; [reflexivity|]. split; [discriminate|].
  apply (facade_authorize_not_atomic
           (Fixtures.credentials (lit "b1"))
           (Fixtures.accepting (Str (lit "b2")))
           B2Bucket.new [] (Fixtures.key_for (Str (lit "b2"))) eq_refl).
  right. right. discriminate.
Defined.

(* ------------------------------------------------------------------ *)
(** ** More on the filename encoding *)
(* ------------------------------------------------------------------ *)

#[local] Transparent sha1 getUrlEncodedFilename.

Lemma split_app sep a b :
  split sep (a ++ sep :: b) = split sep a ++ split sep b.
Proof.
  induction a as [|c a IH].
  - cbn [app split]. now rewrite Z.eqb_refl.
  - cbn [app]. rewrite !split_cons, IH.
    destruct (Z.eqb_spec c sep); [reflexivity|].
    pose proof (split_nonempty sep a) as Hne.
    destruct (split sep a) as [|seg segs]; [congruence | reflexivity].
Qed.

Lemma join_app sep l1 l2 :
  l1 <> [] -> l2 <> [] ->
  join sep (l1 ++ l2) = join sep l1 ++ sep :: join sep l2.
Proof.
  intros H1 H2. induction l1 as [|x l1 IH]; [congruence|].
  destruct l1 as [|y l1].
  - destruct l2 as [|z l2]; [congruence | reflexivity].
  - change ((x :: y :: l1) ++ l2) with (x :: y :: (l1 ++ l2)).
    rewrite !join_cons. change (y :: l1 ++ l2) with ((y :: l1) ++ l2).
    rewrite IH by discriminate. now rewrite <- app_assoc.
Qed.

Lemma mapM_app {A B} (f : A -> Result B) l1 l2 :
  mapM f (l1 ++ l2)
  = bind (mapM f l1) (fun r1 => fmap (app r1) (mapM f l2)).
Proof.
  induction l1 as [|x l1 IH]; cbn [app mapM].
  - cbn. symmetry. apply fmap_id.
  - destruct (f x) as [y|e]; cbn; [|reflexivity].
    rewrite IH. destruct (mapM f l1) as [r1|e]; cbn; [|reflexivity].
    now rewrite fmap_fmap.
Qed.

Lemma mapM_nonempty {A B} (f : A -> Result B) l r :
  mapM f l = Ok r -> l <> [] -> r <> [].
Proof.
  intros H Hne. apply mapM_Forall2 in H.
  destruct H; [congruence | discriminate].
Qed.

(** X1: encoding a path built from two parts with a ["/"] between them is
    encoding the parts and putting the ["/"] between the results; if a part
    cannot be encoded, neither can the path, the first part's error coming
    first. *)
Theorem getUrlEncodedFilename_joins :
  forall a b,
    getUrlEncodedFilename (a ++ slash :: b)
    = bind (getUrlEncodedFilename a)
           (fun ra => fmap (fun rb => ra ++ slash :: rb)
                           (getUrlEncodedFilename b)).
Proof.
  intros a b. unfold getUrlEncodedFilename.
  rewrite split_app, mapM_app.
  destruct (mapM encodeURIComponent (split slash a)) as [ra|e] eqn:Ha;
    cbn; [|reflexivity].
  destruct (mapM encodeURIComponent (split slash b)) as [rb|e] eqn:Hb;
    cbn; [|reflexivity].
  f_equal. apply join_app.
  - eapply mapM_nonempty; [exact Ha | apply split_nonempty].
  - eapply mapM_nonempty; [exact Hb | apply split_nonempty].
Qed.


Lemma hex_upper_unescaped d : 0 <= d < 16 -> unescaped (hex_upper d) = true.
Proof.
  intros H. unfold unescaped, hex_upper.
  zbool; cbn; try reflexivity; lia.
Qed.

Lemma escape_alphabet octs :
  Forall Spec.is_octet octs ->
  Forall (fun c => unescaped c = true \/ c = 37) (escape octs).
Proof.
  induction 1 as [|b octs Hb _ IH]; [constructor|].
  unfold Spec.is_octet in Hb.
  change (escape (b :: octs)) with (escape_octet b ++ escape octs).
  apply Forall_app. split; [|exact IH].
  unfold escape_octet.
  constructor; [now right|].
  constructor; [left; apply hex_upper_unescaped|].
  { split; [apply Z.div_pos; lia | apply Z.div_lt_upper_bound; lia]. }
  constructor; [left; apply hex_upper_unescaped | constructor].
  apply Z.mod_pos_bound. lia.
Qed.

Lemma encode_alphabet s :
  js_string s ->
  forall r, encodeURIComponent s = Ok r ->
            Forall (fun c => unescaped c = true \/ c = 37) r.
Proof.
  assert (Hesc : forall cp r, Spec.scalar cp ->
            Forall (fun c => unescaped c = true \/ c = 37) r ->
            Forall (fun c => unescaped c = true \/ c = 37)
                   (escape (utf8 cp) ++ r)).
  { intros cp r Hcp Hr. apply Forall_app. split; [|exact Hr].
    apply escape_alphabet, utf8_octets. unfold Spec.scalar in Hcp. lia. }
  induction s as [| a | a b l IHl IHbl] using list_ind2; intros Hs r Hr.
  - cbn in Hr. injection Hr as <-. constructor.
  - inversion Hs as [|? ? Ha _]; subst.
    apply encode_head in Hr.
    destruct Hr as [(Hu & r' & Hr' & ->)
                   |[(Hu & Hl & Ht & r' & Hr' & ->)
                    |(Hu & Hl & d & s' & r' & Hs' & _)]];
      [| |discriminate]; cbn in Hr'; injection Hr' as <-.
    + constructor; [now left | constructor].
    + apply Hesc; [now apply unit_scalar | constructor].
  - inversion Hs as [|? ? Ha Hbl]; subst.
    inversion Hbl as [|? ? Hb Hl']; subst.
    apply encode_head in Hr.
    destruct Hr as [(Hu & r' & Hr' & ->)
                   |[(Hu & Hl & Ht & r' & Hr' & ->)
                    |(Hu & Hl & d & s' & r' & Hs' & Hd & Hr' & ->)]].
    + constructor; [now left | now apply IHbl].
    + apply Hesc; [now apply unit_scalar | now apply IHbl].
    + injection Hs' as <- <-.
      apply Hesc; [now apply pair_scalar | now apply IHl].
Qed.

Lemma join_Forall (P : Z -> Prop) sep segs :
  P sep -> Forall (Forall P) segs -> Forall P (join sep segs).
Proof.
  intros Hsep H. induction H as [|x l Hx Hl IH]; [constructor|].
  destruct l as [|y l]; [exact Hx|].
  rewrite join_cons. apply Forall_app. split; [exact Hx|].
  constructor; [exact Hsep | exact IH].
Qed.

(** X2: an encoded filename is made of the unreserved ASCII characters
    (letters, digits and [-_.!~*'()]), ["%"] and ["/"] only: no space, no
    control character, nothing outside ASCII reaches the header or the URL
    it is put in. *)
Theorem getUrlEncodedFilename_alphabet :
  forall filename r,
    js_string filename ->
    getUrlEncodedFilename filename = Ok r ->
    Forall (fun c => unescaped c = true \/ c = 37 \/ c = slash) r
    /\ Forall (fun c => 33 <= c <= 126) r.
Proof.
  intros filename r Hjs Hr.
  assert (H : Forall (fun c => unescaped c = true \/ c = 37 \/ c = slash) r).
  { unfold getUrlEncodedFilename in Hr.
    apply fmap_Ok in Hr. destruct Hr as (encs & Hencs & ->).
    apply mapM_Forall2 in Hencs.
    apply join_Forall; [auto|].
    pose proof (split_js_string slash filename Hjs) as Hsegs.
    induction Hencs as [|seg enc segs encs Henc _ IH]; constructor;
      inversion Hsegs; subst.
    - eapply Forall_impl; [|now apply encode_alphabet with seg].
      cbn. tauto.
    - now apply IH. }
  split; [exact H|].
  eapply Forall_impl; [|exact H]. cbn. intros c [Hc | [-> | ->]].
  - apply unescaped_ascii in Hc. lia.
  - lia.
  - unfold slash. lia.
Qed.

Lemma getUrlEncodedFilename_alphabet_witness :
  js_string [97; 32; 98; 47; 8364]
  /\ getUrlEncodedFilename [97; 32; 98; 47; 8364] = Ok (lit "a%20b/%E2%82%AC")
  /\ Forall (fun c => 33 <= c <= 126) (lit "a%20b/%E2%82%AC").
Proof.
  assert (Hjs : js_string [97; 32; 98; 47; 8364])
    by (repeat constructor; unfold code_unit; lia).
  split; [exact Hjs|]. split; [reflexivity|].
  apply (getUrlEncodedFilename_alphabet
           [97; 32; 98; 47; 8364] (lit "a%20b/%E2%82%AC") Hjs eq_refl).
Defined.

(** X3: two filenames with the same encoding are the same filename. *)
Theorem getUrlEncodedFilename_injective :
  forall f g r,
    js_string f -> js_string g ->
    getUrlEncodedFilename f = Ok r ->
    getUrlEncodedFilename g = Ok r ->
    f = g.
Proof.
  intros f g r Hf Hg Hfr Hgr.
  pose proof (decodeFilename_encoded f r Hf Hfr) as H1.
  pose proof (decodeFilename_encoded g r Hg Hgr) as H2.
  congruence.
Qed.

Lemma getUrlEncodedFilename_injective_witness :
  js_string (lit "a b/c") /\ lit "a b/c" = lit "a b/c".
Proof.
  assert (Hjs : js_string (lit "a b/c"))
    by (repeat constructor; unfold code_unit; lia).
  split; [exact Hjs|].
  apply (getUrlEncodedFilename_injective
           (lit "a b/c") (lit "a b/c") (lit "a%20b/c") Hjs Hjs eq_refl eq_refl).
Defined.

Lemma encode_unescaped s :
  Forall (fun c => unescaped c = true) s -> encodeURIComponent s = Ok s.
Proof.
  induction 1 as [|c s Hc _ IH]; [reflexivity|].
  cbn [encodeURIComponent]. now rewrite Hc, IH.
Qed.

(** X4: a filename made of unreserved ASCII characters and ["/"] only is
    its own encoding. *)
Theorem getUrlEncodedFilename_safe_names :
  forall filename,
    Forall (fun c => unescaped c = true \/ c = slash) filename ->
    getUrlEncodedFilename filename = Ok filename.
Proof.
  intros filename H. unfold getUrlEncodedFilename.
  assert (Hsegs : mapM encodeURIComponent (split slash filename)
                  = Ok (split slash filename)).
  { apply mapM_Forall2.
    assert (Hall : Forall (Forall (fun c => unescaped c = true))
                          (split slash filename)).
    { pose proof (split_no_sep slash filename) as Hno.
      rewrite Forall_forall in *. intros seg Hseg.
      apply Forall_forall. intros c Hc.
      destruct (H c) as [Hu | ->].
      - rewrite <- (join_split slash filename). now apply in_join with seg.
      - exact Hu.
      - exfalso. now apply (Hno seg Hseg). }
    induction Hall as [|seg segs Hseg _ IH]; constructor.
    - now apply encode_unescaped.
    - exact IH. }
  rewrite Hsegs. cbn. now rewrite join_split.
Qed.

Lemma getUrlEncodedFilename_safe_names_witness :
  getUrlEncodedFilename (lit "photos/2019/cat_(1).jpg")
  = Ok (lit "photos/2019/cat_(1).jpg").
Proof.
  apply (getUrlEncodedFilename_safe_names (lit "photos/2019/cat_(1).jpg")).
  repeat first
    [ apply Forall_nil
    | apply Forall_cons; [first [left; reflexivity | right; reflexivity]|] ].
Defined.


(* ------------------------------------------------------------------ *)
(** ** The digest *)
(* ------------------------------------------------------------------ *)

Lemma hex_word_digits w :
  List.length (Sha1.hex_word w) = 8%nat
  /\ Forall (fun c => 48 <= c <= 57 \/ 97 <= c <= 102) (Sha1.hex_word w).
Proof.
  split; [reflexivity|]. unfold Sha1.hex_word. apply Forall_map.
  apply Forall_forall. intros i _.
  pose proof (Z.mod_pos_bound (w / 16 ^ i) 16 ltac:(lia)) as Hd.
  unfold Sha1.hex_lower. zbool.
Qed.

Lemma sha1_length data : List.length (sha1 data) = 40%nat.
Proof.
  unfold sha1, Sha1.hex. rewrite !length_app.
  now rewrite !(proj1 (hex_word_digits _)).
Qed.

(** X5: [sha1] returns forty lower-case hexadecimal digits, whatever the
    data; so the [X-Bz-Content-Sha1] header of [uploadFile], which is
    [hash || sha1(data)], is never empty. *)
Theorem sha1_hex_digest :
  (forall data,
      List.length (sha1 data) = 40%nat
      /\ Forall (fun c => 48 <= c <= 57 \/ 97 <= c <= 102) (sha1 data))
  /\ (forall o srv st log,
         Forall (fun c => exists h,
                     sent_header (lit "X-Bz-Content-Sha1") c = Some (HStr h)
                     /\ h <> [])
                (issued (B2.uploadFile o) srv st log)).
Proof.
  split.
  - intros data. split; [apply sha1_length|].
    unfold sha1, Sha1.hex. repeat (apply Forall_app; split);
      apply hex_word_digits.
  - intros o srv st log.
    unfold issued, calls, B2.uploadFile, mbind, lift, send.
    destruct (getUrlEncodedFilename (B2.uf_filename o)) as [enc|e];
      cbn [snd]; [rewrite skipn_log | rewrite skipn_all_log; constructor].
    constructor; [|constructor].
    eexists. split; [reflexivity|].
    pose proof (sha1_length (OfBuffer (B2.uf_data o))) as Hlen.
    destruct (B2.uf_hash o) as [[|c h]|]; cbn [or_else truthy];
      try discriminate;
      intros E; rewrite E in Hlen; discriminate.
Qed.


(* ------------------------------------------------------------------ *)
(** ** The session *)
(* ------------------------------------------------------------------ *)

#[local] Opaque sha1 getUrlEncodedFilename.

(** X6: [authorize] sends exactly one request, whatever session the client
    holds: a GET through the module-level [axios] to the fixed authorization
    URL, without body, whose only header is [Authorization: Basic] followed
    by the base64 of ["accountId:applicationKey"]. *)
Theorem authorize_request :
  forall a k srv st log,
    exists c,
      issued (B2.authorize a k) srv st log = [c]
      /\ via c = Static
      /\ method c = GET
      /\ url c = lit "https://api.backblaze.com/b2api/v1/b2_authorize_account"
      /\ body c = None
      /\ headers_of c
         = [(lit "Authorization",
             HStr (lit "Basic "
                   ++ base64 (utf8_bytes (a ++ lit ":" ++ k))))].
Proof.
  intros a k srv st log.
  unfold issued, calls, B2.authorize, mbind, send, get, put, ret.
  match goal with
  | |- context [authorize_account srv log ?c] =>
      exists c; destruct (authorize_account srv log c)
  end; cbn [snd]; rewrite skipn_log; repeat split.
Qed.

(** X7: when the authorization request succeeds, [authorize] returns the
    payload and the client holds exactly the new session, whatever it held
    before: the instance for [apiUrl + "/b2api/v1"] with the granted token,
    the [accountId] it was called with, and the granted download URL. When
    the request fails, [authorize] throws the transport's error and the
    client is as it was: a session it already held stays usable. *)
Theorem authorize_outcome :
  forall a k srv st log,
    match result (B2.authorize a k srv st log) with
    | Ok resp =>
        final (B2.authorize a k srv st log)
        = {| B2.axios :=
               Some {| baseURL := apiUrl resp ++ lit "/b2api/v1";
                       defaults := [(lit "Authorization",
                                     HStr (authorizationToken resp))] |};
             B2.accountId := Some a;
             B2.downloadUrl := Some (auth_downloadUrl resp) |}
    | Throw e => final (B2.authorize a k srv st log) = st
    end.
Proof.
  intros a k srv st log.
  unfold result, final, B2.authorize, mbind, send, get, put, ret.
  destruct (authorize_account srv log _); reflexivity.
Qed.

Ltac run_b2 :=
  unfold issued, calls, final, result, B2.invoke, mmap, B2.authorize,
    B2.createBucket,
    B2.deleteBucket, B2.listBuckets, B2.updateBucket, B2.getUploadUrl,
    B2.uploadFile, B2.uploadPart,
    B2.listFileNames, B2.listFileVersions, B2.hideFile, B2.getFileInfo,
    B2.deleteFileVersion, B2.getDownloadAuthorization,
    B2.downloadFileByName, B2.downloadFileById, B2.startLargeFile,
    B2.getUploadPartUrl, B2.finishLargeFile, B2.cancelLargeFile, B2.post,
    B2.this_axios, mbind, lift, get, put, ret, throw, send.

Ltac answer srv :=
  repeat match goal with
  | |- context [respond srv ?l ?c] => destruct (respond srv l c)
  | |- context [upload_url srv ?l ?c] => destruct (upload_url srv l c)
  | |- context [authorize_account srv ?l ?c] =>
      destruct (authorize_account srv l c)
  end.

(** X8: on a client that holds a session, every operation that goes
    through the session transport sends exactly one request, through the
    session's instance (so under its base URL and with its token);
    [downloadFileByName] with a filename that cannot be encoded is the one
    exception: it throws the [URIError] and sends nothing. *)
Theorem authorized_calls_send_one :
  forall op srv st log i,
    B2.axios st = Some i ->
    B2.through_session op = true ->
    (exists c, issued (B2.invoke op) srv st log = [c] /\ via c = Created i)
    \/ (exists o,
          op = B2.DownloadFileByName o
          /\ Spec.well_formed (B2.dn_fileName o) = false
          /\ issued (B2.invoke op) srv st log = []
          /\ result (B2.invoke op srv st log) = Throw URIError).
Proof.
  intros op srv st log i Hax Hop.
  destruct op; try discriminate Hop; run_b2;
    try (left; rewrite Hax; answer srv; cbn [snd]; rewrite skipn_log;
         eexists; split; reflexivity).
  destruct (getUrlEncodedFilename (B2.dn_fileName o)) as [enc|e] eqn:Henc.
  - left. rewrite Hax. answer srv; cbn [snd]; rewrite skipn_log;
      eexists; split; reflexivity.
  - right. exists o. cbn [fst snd]. rewrite skipn_all_log.
    assert (e = URIError)
      by (now apply getUrlEncodedFilename_throws in Henc).
    subst e. repeat split. now apply getUrlEncodedFilename_ill_formed.
Qed.

Lemma authorized_calls_send_one_witness :
  B2.axios (final (B2.authorize (lit "acct") (lit "key")
                                (Fixtures.accepting Null) B2.new []))
  = Some {| baseURL := lit "https://api001.backblazeb2.com/b2api/v1";
            defaults := [(lit "Authorization",
                          HStr (lit "session-token"))] |}
  /\ (List.length
        (issued (B2.invoke B2.ListBuckets) (Fixtures.accepting Null)
                (final (B2.authorize (lit "acct") (lit "key")
                                     (Fixtures.accepting Null) B2.new []))
                []) = 1)%nat.
Proof.
  split; [reflexivity|].
  destruct (authorized_calls_send_one
              B2.ListBuckets (Fixtures.accepting Null)
              (final (B2.authorize (lit "acct") (lit "key")
                                   (Fixtures.accepting Null) B2.new []))
              [] _ eq_refl eq_refl) as [(c & -> & _) | (o & Ho & _)].
  - reflexivity.
  - discriminate Ho.
Defined.

(** X9: every operation adds at most one call to the log and leaves the
    calls already logged in place; and only [authorize] changes the client:
    after any other operation, returned or thrown, the client is as it
    was. *)
Theorem operations_frame :
  forall op srv st log,
    (exists new,
        calls (B2.invoke op srv st log) = log ++ new
        /\ (List.length new <= 1)%nat)
    /\ (B2.is_authorize op = false ->
        final (B2.invoke op srv st log) = st).
Proof.
  intros op srv st log.
  assert (H0 : exists new : list Call,
             log = log ++ new /\ (List.length new <= 1)%nat)
    by (exists []; rewrite app_nil_r; auto).
  assert (H1 : forall c, exists new : list Call,
             log ++ [c] = log ++ new /\ (List.length new <= 1)%nat)
    by (intros c; exists [c]; auto).
  destruct op; run_b2;
    try destruct (getUrlEncodedFilename _);
    try destruct (B2.axios st);
    answer srv; cbn [fst snd]; (split; [auto | try reflexivity]);
    discriminate.
Qed.


(** X10: the bucket calls send, as [accountId], the first argument of the
    [authorize] call that opened the session, not the account id of the
    authorization payload. *)
Theorem bucket_calls_account_id :
  forall a k srv st log resp,
    result (B2.authorize a k srv st log) = Ok resp ->
    forall log' name ty bucket,
      map (body_prop (lit "accountId"))
          (issued (B2.createBucket name ty) srv
                  (final (B2.authorize a k srv st log)) log')
      = [VStr a]
      /\ map (body_prop (lit "accountId"))
             (issued (B2.deleteBucket bucket) srv
                     (final (B2.authorize a k srv st log)) log')
         = [VStr a]
      /\ map (body_prop (lit "accountId"))
             (issued B2.listBuckets srv
                     (final (B2.authorize a k srv st log)) log')
         = [VStr a]
      /\ map (body_prop (lit "accountId"))
             (issued (B2.updateBucket bucket ty) srv
                     (final (B2.authorize a k srv st log)) log')
         = [VStr a].
Proof.
  intros a k srv st log resp Hresp log' name ty bucket.
  rewrite (authorize_session _ _ _ _ _ _ Hresp).
  unfold issued, calls, B2.createBucket, B2.deleteBucket, B2.listBuckets,
    B2.updateBucket, B2.this_axios, mbind, get, ret, send.
  cbn [B2.axios B2.accountId snd]. rewrite !skipn_log.
  repeat split.
Qed.

Lemma bucket_calls_account_id_witness :
  result (B2.authorize (lit "key-id") (lit "key")
                       (Fixtures.accepting Null) B2.new [])
  = Ok (Fixtures.key_for Null)
  /\ auth_accountId (Fixtures.key_for Null) = lit "acct"
  /\ map (body_prop (lit "accountId"))
         (issued B2.listBuckets (Fixtures.accepting Null)
                 (final (B2.authorize (lit "key-id") (lit "key")
                                      (Fixtures.accepting Null) B2.new []))
                 [])
     = [VStr (lit "key-id")].
Proof.
  split; [reflexivity|]. split; [reflexivity|].
  apply (bucket_calls_account_id
           (lit "key-id") (lit "key") (Fixtures.accepting Null) B2.new []
           (Fixtures.key_for Null) eq_refl [] [] [] []).
Defined.


(* ------------------------------------------------------------------ *)
(** ** Uploads and downloads *)
(* ------------------------------------------------------------------ *)

Lemma or_num_same x : or_num x x = x.
Proof. unfold or_num. now destruct (_ || _). Qed.

(** X11: the request of [uploadFile] is a POST whose body is the data
    itself, whose [Content-Length] is the number of bytes of the data, and
    whose [X-Bz-File-Name] decodes, segment by segment, to the filename the
    caller gave. *)
Theorem uploadFile_names_the_file :
  forall o srv st log,
    js_string (B2.uf_filename o) ->
    Forall (fun c =>
              method c = POST
              /\ body c = Some (RawBody (B2.uf_data o))
              /\ sent_header (lit "Content-Length") c
                 = Some (HNum (number_of_nat (List.length (B2.uf_data o))))
              /\ exists enc,
                  sent_header (lit "X-Bz-File-Name") c = Some (HStr enc)
                  /\ Spec.decodeFilename enc = Ok (B2.uf_filename o))
           (issued (B2.uploadFile o) srv st log).
Proof.
  intros o srv st log Hjs.
  unfold issued, calls, B2.uploadFile, mbind, lift, send.
  destruct (getUrlEncodedFilename (B2.uf_filename o)) as [enc|e] eqn:Henc;
    cbn [snd]; [rewrite skipn_log | rewrite skipn_all_log; constructor].
  constructor; [|constructor].
  split; [reflexivity|]. split; [reflexivity|]. split.
  - unfold sent_header, headers_of, B2.content_length. cbn.
    now rewrite or_num_same.
  - exists enc. split; [reflexivity|]. now apply decodeFilename_encoded.
Qed.

Lemma uploadFile_names_the_file_witness :
  js_string (lit "a b/c#d")
  /\ map (sent_header (lit "X-Bz-File-Name"))
         (issued (B2.uploadFile (Fixtures.file (lit "a b/c#d") [] None))
                 (Fixtures.accepting Null) B2.new [])
     = [Some (HStr (lit "a%20b/c%23d"))]
  /\ Forall (fun c =>
               exists enc,
                 sent_header (lit "X-Bz-File-Name") c = Some (HStr enc)
                 /\ Spec.decodeFilename enc = Ok (lit "a b/c#d"))
            (issued (B2.uploadFile (Fixtures.file (lit "a b/c#d") [] None))
                    (Fixtures.accepting Null) B2.new []).
Proof.
  assert (Hjs : js_string (lit "a b/c#d"))
    by (repeat constructor; unfold code_unit; lia).
  split; [exact Hjs|]. split; [vm_compute; reflexivity|].
  eapply Forall_impl;
    [| apply (uploadFile_names_the_file
                (Fixtures.file (lit "a b/c#d") [] None)
                (Fixtures.accepting Null) B2.new [] Hjs)].
  cbn beta. intros c (_ & _ & _ & H). exact H.
Defined.

(** X12: [uploadFile] sends the caller's [mime] as [Content-Type] when it
    is a non-empty string, and ["b2/x-auto"] when it is missing or empty;
    [startLargeFile] sends the caller's [contentType] whenever one is given,
    the empty string included, and ["b2/x-auto"] only when none is given;
    [uploadPart] sends no [Content-Type] and no [X-Bz-File-Name]. *)
Theorem content_type_defaults :
  forall srv st log,
    (forall o,
        Forall (fun c =>
                  sent_header (lit "Content-Type") c
                  = Some (HStr (match B2.uf_mime o with
                                | Some (x :: m) => x :: m
                                | _ => lit "b2/x-auto"
                                end)))
               (issued (B2.uploadFile o) srv st log))
    /\ (forall o i,
           B2.axios st = Some i ->
           map (body_prop (lit "contentType"))
               (issued (B2.startLargeFile o) srv st log)
           = [VStr (match B2.sl_contentType o with
                    | Some c => c
                    | None => lit "b2/x-auto"
                    end)])
    /\ (forall o,
           Forall (fun c =>
                     sent_header (lit "Content-Type") c = None
                     /\ sent_header (lit "X-Bz-File-Name") c = None)
                  (issued (B2.uploadPart o) srv st log)).
Proof.
  intros srv st log. split; [|split].
  - intros o. unfold issued, calls, B2.uploadFile, mbind, lift, send.
    destruct (getUrlEncodedFilename (B2.uf_filename o)) as [enc|e];
      cbn [snd]; [rewrite skipn_log | rewrite skipn_all_log; constructor].
    constructor; [|constructor].
    unfold sent_header, headers_of. cbn.
    destruct (B2.uf_mime o) as [[|x m]|]; reflexivity.
  - intros o i Hax.
    unfold issued, calls, B2.startLargeFile, B2.this_axios, mbind, get, ret,
      send.
    rewrite Hax. cbn [snd]. rewrite skipn_log.
    destruct (B2.sl_contentType o); reflexivity.
  - intros o. unfold issued, calls, B2.uploadPart, send. cbn [snd].
    rewrite skipn_log. constructor; [|constructor]. split; reflexivity.
Qed.

(** X13: on a session opened by [authorize], [downloadFileByName] sends a
    GET without body for the granted download URL followed by ["/file/"],
    the bucket name as given, ["/"] and the encoded file name, and
    [downloadFileById] one for the granted download URL followed by
    ["/b2api/v1/b2_download_file_by_id?fileId="] and the file id as given;
    both go through the session's instance and pass [responseType] on. *)
Theorem download_urls :
  forall a k srv st log resp,
    result (B2.authorize a k srv st log) = Ok resp ->
    forall log',
      (forall o enc,
          getUrlEncodedFilename (B2.dn_fileName o) = Ok enc ->
          exists c cfg i,
            issued (B2.downloadFileByName o) srv
                   (final (B2.authorize a k srv st log)) log' = [c]
            /\ method c = GET /\ body c = None /\ via c = Created i
            /\ url c = auth_downloadUrl resp ++ lit "/file/"
                       ++ B2.dn_bucketName o ++ lit "/" ++ enc
            /\ config c = Some cfg
            /\ responseType cfg = B2.dn_responseType o)
      /\ (forall o,
             exists c cfg i,
               issued (B2.downloadFileById o) srv
                      (final (B2.authorize a k srv st log)) log' = [c]
               /\ method c = GET /\ body c = None /\ via c = Created i
               /\ url c = auth_downloadUrl resp
                          ++ lit "/b2api/v1/b2_download_file_by_id?fileId="
                          ++ B2.di_fileId o
               /\ config c = Some cfg
               /\ responseType cfg = B2.di_responseType o).
Proof.
  intros a k srv st log resp Hresp log'.
  rewrite (authorize_session _ _ _ _ _ _ Hresp).
  split.
  - intros o enc Henc.
    unfold issued, calls, B2.downloadFileByName, B2.this_axios, mbind, lift,
      get, ret, send.
    rewrite Henc. cbn [B2.axios B2.downloadUrl snd show]. rewrite skipn_log.
    do 3 eexists. repeat split.
  - intros o.
    unfold issued, calls, B2.downloadFileById, B2.this_axios, mbind, get,
      ret, send.
    cbn [B2.axios B2.downloadUrl snd show]. rewrite skipn_log.
    do 3 eexists. repeat split.
Qed.

Lemma download_urls_witness :
  result (B2.authorize (lit "acct") (lit "key")
                       (Fixtures.accepting Null) B2.new [])
  = Ok (Fixtures.key_for Null)
  /\ map url
         (issued (B2.downloadFileById
                    {| B2.di_fileId := lit "4_z27";
                       B2.di_responseType := None;
                       B2.di_onDownloadProgress := None |})
                 (Fixtures.accepting Null)
                 (final (B2.authorize (lit "acct") (lit "key")
                                      (Fixtures.accepting Null) B2.new []))
                 [])
     = [lit "https://f001.backblazeb2.com"
        ++ lit "/b2api/v1/b2_download_file_by_id?fileId=4_z27"].
Proof.
  split; [reflexivity|].
  destruct (proj2 (download_urls
                     (lit "acct") (lit "key") (Fixtures.accepting Null)
                     B2.new [] (Fixtures.key_for Null) eq_refl [])
                  {| B2.di_fileId := lit "4_z27";
                     B2.di_responseType := None;
                     B2.di_onDownloadProgress := None |})
    as (c & cfg & i & Hc & _ & _ & _ & Hu & _).
  rewrite Hc. cbn [map]. rewrite Hu. reflexivity.
Defined.


(* ------------------------------------------------------------------ *)
(** ** The facade *)
(* ------------------------------------------------------------------ *)

Ltac run_facade :=
  unfold B2Bucket.invoke, B2Bucket.upload, B2Bucket.getUploadUrl,
    B2Bucket.uploadFile, B2Bucket.listFileNames, B2Bucket.listFileVersions,
    B2Bucket.hideFile, B2Bucket.getFileInfo, B2Bucket.deleteFileVersion,
    B2Bucket.getDownloadAuthorization, B2Bucket.downloadFileByName,
    B2Bucket.downloadFileById, B2Bucket.startLargeFile,
    B2Bucket.getUploadPartUrl, B2Bucket.uploadPart,
    B2Bucket.finishLargeFile, B2Bucket.cancelLargeFile, B2Bucket.this_b2;
  run_b2.

(** X14: on a facade that was never authorized, every operation but
    [authorize], the two uploads included, throws the [TypeError] of
    reading a property of the [undefined] client, sends nothing, and leaves
    the facade as it was. *)
Theorem facade_unauthorized_calls_fail :
  forall op srv st log,
    B2Bucket.b2 st = None ->
    B2Bucket.is_authorize op = false ->
    calls (B2Bucket.invoke op srv st log) = log
    /\ final (B2Bucket.invoke op srv st log) = st
    /\ exists prop,
        result (B2Bucket.invoke op srv st log) = Throw (TypeError prop).
Proof.
  intros op srv st log Hb2 Hop.
  destruct op; try discriminate Hop; run_facade;
    rewrite Hb2; cbn [fst snd]; repeat split; eexists; reflexivity.
Qed.

Lemma facade_unauthorized_calls_fail_witness :
  B2Bucket.b2 B2Bucket.new = None
  /\ calls (B2Bucket.invoke
              (B2Bucket.UploadPart (Fixtures.part 1%float []))
              (Fixtures.accepting Null) B2Bucket.new [])
     = [].
Proof.
  split; [reflexivity|].
  apply (facade_unauthorized_calls_fail
           (B2Bucket.UploadPart (Fixtures.part 1%float []))
           (Fixtures.accepting Null) B2Bucket.new [] eq_refl eq_refl).
Defined.

(** X17: when the authorization request itself fails, the facade's
    [authorize] throws the transport's error, and the facade is left with
    the supplied [bucketId] and a new client without a session: a session
    the facade held before is gone. *)
Theorem facade_authorize_failure :
  forall o srv st log e,
    result (B2.authorize (B2Bucket.ao_accountId o)
                         (B2Bucket.ao_applicationKey o) srv B2.new log)
    = Throw e ->
    result (B2Bucket.authorize o srv st log) = Throw e
    /\ final (B2Bucket.authorize o srv st log)
       = {| B2Bucket.bucketId := Some (B2Bucket.ao_bucketId o);
            B2Bucket.b2 := Some B2.new |}
    /\ List.length (issued (B2Bucket.authorize o) srv st log) = 1%nat.
Proof.
  intros o srv st log e.
  unfold B2Bucket.authorize, B2Bucket.this_b2, issued, calls, result, final,
    B2.authorize, mbind, send, get, put, ret.
  cbn [B2Bucket.b2 B2Bucket.bucketId].
  destruct (authorize_account srv log _) as [r|e']; cbn [fst snd];
    intros H; [discriminate|].
  injection H as ->. rewrite skipn_log. repeat split.
Qed.

Lemma facade_authorize_failure_witness :
  B2Bucket.b2 (Fixtures.authorized_facade (lit "b1")) <> Some B2.new
  /\ final (B2Bucket.authorize (Fixtures.credentials (lit "b1"))
                               (Fixtures.rejecting 401)
                               (Fixtures.authorized_facade (lit "b1")) [])
     = {| B2Bucket.bucketId := Some (lit "b1");
          B2Bucket.b2 := Some B2.new |}.
Proof.
  split; [discriminate|].
  apply (facade_authorize_failure
           (Fixtures.credentials (lit "b1")) (Fixtures.rejecting 401)
           (Fixtures.authorized_facade (lit "b1")) []
           (TransportError 401) eq_refl).
Defined.


Lemma get_set_prop_other k k' v o :
  eqb k k' = false -> get_prop k (set_prop k' v o) = get_prop k o.
Proof.
  intros Hne. induction o as [|[k0 v0] o IH]; cbn.
  - now rewrite Hne.
  - destruct (eqb k' k0) eqn:E; cbn.
    + apply eqb_eq in E. subst k0. now rewrite Hne.
    + destruct (eqb k k0); [reflexivity | exact IH].
Qed.

Lemma eqb_neq s t : eqb s t = false <-> s <> t.
Proof.
  split.
  - intros H E. apply eqb_eq in E. congruence.
  - intros H. destruct (eqb s t) eqn:E; [|reflexivity].
    apply eqb_eq in E. contradiction.
Qed.

Lemma spread_get_out k base extra :
  ~ In k (map fst extra) ->
  get_prop k (spread base extra) = get_prop k base.
Proof.
  unfold spread. revert base.
  induction extra as [|[k' v'] extra IH]; intros base Hout; [reflexivity|].
  cbn [fold_left fst snd]. rewrite IH.
  - apply get_set_prop_other, eqb_neq. intros ->. apply Hout. now left.
  - intros Hin. apply Hout. now right.
Qed.

Lemma spread_get_in k base extra :
  NoDup (map fst extra) -> In k (map fst extra) ->
  get_prop k (spread base extra) = get_prop k extra.
Proof.
  unfold spread. revert base.
  induction extra as [|[k' v'] extra IH]; intros base Hnd Hin; [destruct Hin|].
  cbn [map fst] in Hnd. inversion Hnd as [|? ? Hk' Hnd']; subst.
  cbn [fold_left fst snd get_prop].
  destruct (eqb k k') eqn:E.
  - apply eqb_eq in E. subst k'.
    change (get_prop k (spread (set_prop k v' base) extra) = v').
    rewrite spread_get_out by exact Hk'. apply get_set_prop.
  - apply IH; [exact Hnd'|]. destruct Hin as [Hin|Hin]; [|exact Hin].
    cbn in Hin. subst k'. now rewrite eqb_refl in E.
Qed.

(** X15: on an authorized facade, [listFileNames], [listFileVersions],
    [hideFile] and [getDownloadAuthorization] send one request whose body
    holds every property of the caller's options with the caller's value; it
    holds the facade's bucket as [bucketId] when the options have no
    [bucketId] of their own, and the options' [bucketId] when they have one:
    the spread comes after the facade's bucket. [getUploadUrl] always sends
    the facade's bucket. *)
Theorem facade_bucket_in_body :
  forall srv st log b c i opts m,
    B2Bucket.bucketId st = Some b ->
    B2Bucket.b2 st = Some c ->
    B2.axios c = Some i ->
    NoDup (map fst opts) ->
    In m [B2Bucket.listFileNames (Some opts);
          B2Bucket.listFileVersions (Some opts);
          B2Bucket.hideFile opts;
          B2Bucket.getDownloadAuthorization opts] ->
    (exists call,
        issued m srv st log = [call]
        /\ via call = Created i
        /\ (forall k, In k (map fst opts) ->
                      body_prop k call = get_prop k opts)
        /\ (~ In (lit "bucketId") (map fst opts) ->
            body_prop (lit "bucketId") call = VStr b))
    /\ map (body_prop (lit "bucketId"))
           (issued B2Bucket.getUploadUrl srv st log)
       = [VStr b].
Proof.
  intros srv st log b c i opts m Hb Hc Hi Hnd Hm. split.
  - assert (Hbody : forall k, In k (map fst opts) ->
              get_prop k (B2Bucket.with_bucket st opts) = get_prop k opts).
    { intros k Hk. unfold B2Bucket.with_bucket. now apply spread_get_in. }
    assert (Hpin : ~ In (lit "bucketId") (map fst opts) ->
              get_prop (lit "bucketId") (B2Bucket.with_bucket st opts)
              = VStr b).
    { intros Hout. unfold B2Bucket.with_bucket.
      rewrite spread_get_out by exact Hout. rewrite Hb. reflexivity. }
    destruct Hm as [<- | [<- | [<- | [<- | []]]]];
      unfold issued, calls, B2Bucket.listFileNames,
        B2Bucket.listFileVersions, B2Bucket.hideFile,
        B2Bucket.getDownloadAuthorization, B2Bucket.this_b2,
        B2Bucket.or_empty, B2.listFileNames, B2.listFileVersions,
        B2.hideFile, B2.getDownloadAuthorization, B2.post, B2.this_axios,
        mbind, get, ret, send;
      rewrite Hc; cbn [fst snd]; rewrite Hi; cbn [fst snd];
      rewrite skipn_log; eexists;
      (split; [reflexivity|]); (split; [reflexivity|]);
      split; assumption.
  - unfold issued, calls, B2Bucket.getUploadUrl, B2Bucket.this_b2,
      B2.getUploadUrl, B2.this_axios, mbind, get, ret, send.
    rewrite Hc. cbn [fst snd]. rewrite Hi. cbn [fst snd].
    rewrite skipn_log, Hb. reflexivity.
Qed.


Lemma facade_bucket_in_body_witness :
  map (body_prop (lit "bucketId"))
      (issued (B2Bucket.listFileNames
                 (Some [(lit "prefix", VStr (lit "pets/"))]))
              (Fixtures.accepting Null)
              (Fixtures.authorized_facade (lit "b1")) [])
  = [VStr (lit "b1")]
  /\ map (body_prop (lit "prefix"))
         (issued (B2Bucket.listFileNames
                    (Some [(lit "prefix", VStr (lit "pets/"))]))
                 (Fixtures.accepting Null)
                 (Fixtures.authorized_facade (lit "b1")) [])
     = [VStr (lit "pets/")].
Proof.
  destruct (proj1 (facade_bucket_in_body
                     (Fixtures.accepting Null)
                     (Fixtures.authorized_facade (lit "b1")) []
                     (lit "b1") _ _
                     [(lit "prefix", VStr (lit "pets/"))]
                     (B2Bucket.listFileNames
                        (Some [(lit "prefix", VStr (lit "pets/"))]))
                     eq_refl eq_refl eq_refl
                     ltac:(repeat constructor; intros [])
                     ltac:(left; reflexivity)))
    as (call & Hcall & _ & Hopts & Hpin).
  rewrite Hcall. cbn [map]. split.
  - rewrite Hpin; [reflexivity|]. intros [H|[]]. discriminate H.
  - rewrite Hopts; [reflexivity|]. left. reflexivity.
Defined.

(** X16: the facade's [upload] first asks for an upload URL for the
    facade's bucket, through the session; when that fails it throws the
    error and uploads nothing; when the filename cannot be encoded it throws
    the [URIError] after the ticket was obtained, and uploads nothing;
    otherwise it sends the file to the ticket's [uploadUrl] with the
    ticket's [authorizationToken], through the module-level [axios], and
    returns the server's answer to that second request. *)
Theorem facade_upload_sequence :
  forall o srv st log c i,
    B2Bucket.b2 st = Some c ->
    B2.axios c = Some i ->
    exists c1,
      via c1 = Created i
      /\ url c1 = lit "/b2_get_upload_url"
      /\ body c1
         = Some (JsonBody [(lit "bucketId",
                            or_undefined (B2Bucket.bucketId st))])
      /\ match upload_url srv log c1 with
         | Throw e =>
             issued (B2Bucket.upload o) srv st log = [c1]
             /\ result (B2Bucket.upload o srv st log) = Throw e
         | Ok ticket =>
             match getUrlEncodedFilename (B2Bucket.u_filename o) with
             | Throw e =>
                 issued (B2Bucket.upload o) srv st log = [c1]
                 /\ result (B2Bucket.upload o srv st log) = Throw e
             | Ok enc =>
                 exists c2,
                   issued (B2Bucket.upload o) srv st log = [c1; c2]
                   /\ via c2 = Static
                   /\ url c2 = uploadUrl ticket
                   /\ sent_header (lit "Authorization") c2
                      = Some (HStr (ticket_authorizationToken ticket))
                   /\ body c2 = Some (RawBody (B2Bucket.u_data o))
                   /\ result (B2Bucket.upload o srv st log)
                      = respond srv (log ++ [c1]) c2
             end
         end.
Proof.
  intros o srv st log c i Hc Hi.
  unfold issued, calls, result, B2Bucket.upload, B2Bucket.getUploadUrl,
    B2Bucket.uploadFile, B2Bucket.this_b2, B2.getUploadUrl, B2.uploadFile,
    B2.this_axios, mbind, lift, get, ret, send.
  rewrite Hc. cbn [fst snd B2Bucket.b2]. rewrite Hi. cbn [fst snd].
  match goal with
  | |- context [upload_url srv log ?c1] => exists c1
  end.
  split; [reflexivity|]. split; [reflexivity|]. split; [reflexivity|].
  destruct (upload_url srv log _) as [ticket|e]; cbn [fst snd B2Bucket.b2].
  - cbn [B2.uf_filename].
    destruct (getUrlEncodedFilename (B2Bucket.u_filename o)) as [enc|e];
      cbn [fst snd].
    + eexists. rewrite <- app_assoc, skipn_log. repeat split.
    + rewrite skipn_log. split; reflexivity.
  - rewrite skipn_log. split; reflexivity.
Qed.

Lemma facade_upload_sequence_witness :
  map url (issued (B2Bucket.upload (Fixtures.upload_of (lit "a b") []))
                  (Fixtures.accepting Null)
                  (Fixtures.authorized_facade (lit "b1")) [])
  = [lit "/b2_get_upload_url"; lit "https://pod.backblaze.com/upload"].
Proof.
  destruct (facade_upload_sequence
              (Fixtures.upload_of (lit "a b") []) (Fixtures.accepting Null)
              (Fixtures.authorized_facade (lit "b1")) [] _ _
              eq_refl eq_refl)
    as (c1 & _ & Hu1 & _ & H).
  change (upload_url (Fixtures.accepting Null) [] c1)
    with (Ok {| ticket_bucketId := lit "b1";
                uploadUrl := lit "https://pod.backblaze.com/upload";
                ticket_authorizationToken := lit "ticket" |}) in H.
  replace (getUrlEncodedFilename
             (B2Bucket.u_filename (Fixtures.upload_of (lit "a b") [])))
    with (Ok (lit "a%20b")) in H by (vm_compute; reflexivity).
  destruct H as (c2 & Hiss & _ & Hu2 & _).
  rewrite Hiss. cbn [map]. now rewrite Hu1, Hu2.
Defined.

(** X18: every operation of the facade other than [authorize] leaves the
    facade as it was, its bucket and the session of its client included,
    whether it returns or throws; it adds at most one call to the log, and
    [upload] at most two. *)
Theorem facade_operations_frame :
  forall op srv st log,
    B2Bucket.is_authorize op = false ->
    final (B2Bucket.invoke op srv st log) = st
    /\ exists new,
        calls (B2Bucket.invoke op srv st log) = log ++ new
        /\ (List.length new <= 2)%nat
        /\ (match op with B2Bucket.Upload _ => True | _ => False end
            \/ (List.length new <= 1)%nat).
Proof.
  intros op srv [b [c|]] log Hop.
  - assert (H0 : exists new : list Call,
               log = log ++ new /\ (List.length new <= 2)%nat
               /\ (List.length new <= 1)%nat)
      by (exists []; rewrite app_nil_r; cbn; auto).
    assert (H1 : forall c1, exists new : list Call,
               log ++ [c1] = log ++ new /\ (List.length new <= 2)%nat
               /\ (List.length new <= 1)%nat)
      by (intros c1; exists [c1]; cbn; auto).
    assert (H2 : forall c1 c2, exists new : list Call,
               (log ++ [c1]) ++ [c2] = log ++ new
               /\ (List.length new <= 2)%nat)
      by (intros c1 c2; exists [c1; c2]; rewrite <- app_assoc; cbn; auto).
    destruct op; try discriminate Hop; run_facade;
      cbn [B2Bucket.b2 B2Bucket.bucketId fst snd];
      try destruct (getUrlEncodedFilename _);
      try destruct (B2.axios c);
      answer srv; cbn [fst snd B2Bucket.b2 B2Bucket.bucketId B2.uf_filename];
      try destruct (getUrlEncodedFilename _);
      answer srv; cbn [fst snd];
      (split; [reflexivity|]);
      first [ destruct (H0) as (new & Hn & H2' & H1'); exists new;
              split; [exact Hn | split; [exact H2' | right; exact H1']]
            | match goal with
              | |- exists new, ?l ++ [?c1] = _ /\ _ =>
                  destruct (H1 c1) as (new & Hn & H2' & H1'); exists new;
                  split; [exact Hn | split; [exact H2' | right; exact H1']]
              end
            | match goal with
              | |- exists new, (?l ++ [?c1]) ++ [?c2] = _ /\ _ =>
                  destruct (H2 c1 c2) as (new & Hn & H2'); exists new;
                  split; [exact Hn | split; [exact H2' | left; exact I]]
              end ].
  - destruct op; try discriminate Hop; run_facade;
      cbn [B2Bucket.b2 fst snd]; (split; [reflexivity|]);
      exists []; rewrite app_nil_r; cbn; auto.
Qed.


Lemma facade_operations_frame_witness :
  B2Bucket.is_authorize
    (B2Bucket.Upload (Fixtures.upload_of (lit "a b") [])) = false
  /\ final (B2Bucket.invoke
              (B2Bucket.Upload (Fixtures.upload_of (lit "a b") []))
              (Fixtures.accepting Null)
              (Fixtures.authorized_facade (lit "b1")) [])
     = Fixtures.authorized_facade (lit "b1").
Proof.
  split; [reflexivity|].
  apply (facade_operations_frame
           (B2Bucket.Upload (Fixtures.upload_of (lit "a b") []))
           (Fixtures.accepting Null)
           (Fixtures.authorized_facade (lit "b1")) [] eq_refl).
Defined.

(** X19: when the authorization request succeeds and the allowed bucket
    is the configured one (and not empty), the facade's [authorize] has sent
    that one request and leaves the facade with the configured bucket and a
    client that holds the granted session, whatever the facade held
    before. *)
Theorem facade_authorize_success :
  forall o srv st log resp,
    result (B2.authorize (B2Bucket.ao_accountId o)
                         (B2Bucket.ao_applicationKey o) srv B2.new log)
    = Ok resp ->
    allowed_bucketId (allowed resp) = Str (B2Bucket.ao_bucketId o) ->
    B2Bucket.ao_bucketId o <> [] ->
    result (B2Bucket.authorize o srv st log) = Ok resp
    /\ final (B2Bucket.authorize o srv st log)
       = {| B2Bucket.bucketId := Some (B2Bucket.ao_bucketId o);
            B2Bucket.b2 :=
              Some {| B2.axios :=
                        Some {| baseURL := apiUrl resp ++ lit "/b2api/v1";
                                defaults :=
                                  [(lit "Authorization",
                                    HStr (authorizationToken resp))] |};
                      B2.accountId := Some (B2Bucket.ao_accountId o);
                      B2.downloadUrl := Some (auth_downloadUrl resp) |} |}
    /\ issued (B2Bucket.authorize o) srv st log
       = issued (B2.authorize (B2Bucket.ao_accountId o)
                              (B2Bucket.ao_applicationKey o)) srv B2.new log.
Proof.
  intros o srv st log resp Hresp Hallowed Hne.
  destruct (facade_authorize_run o srv st log resp Hresp) as [Hr Hf].
  rewrite Hr, Hf, Hallowed, (authorize_session _ _ _ _ _ _ Hresp).
  split; [|split; [reflexivity|]].
  - destruct (B2Bucket.ao_bucketId o) as [|x b]; [congruence|].
    cbn [truthy_field truthy negb orb strict_neq]. now rewrite eqb_refl.
  - unfold issued, calls, B2Bucket.authorize, B2Bucket.this_b2, mbind, get,
      put, throw, ret.
    cbn [B2Bucket.b2 B2Bucket.bucketId].
    destruct (B2.authorize _ _ srv B2.new log) as [[r c] log'].
    cbn [fst snd]. destruct r as [resp'|e]; [|reflexivity].
    match goal with
    | |- context [if ?b then _ else _] => destruct b
    end; reflexivity.
Qed.

Lemma facade_authorize_success_witness :
  result (B2.authorize (lit "acct") (lit "key")
                       (Fixtures.accepting (Str (lit "b1"))) B2.new [])
  = Ok (Fixtures.key_for (Str (lit "b1")))
  /\ B2Bucket.bucketId (Fixtures.authorized_facade (lit "b1"))
     = Some (lit "b1").
Proof.
  split; [reflexivity|].
  destruct (facade_authorize_success
              (Fixtures.credentials (lit "b1"))
              (Fixtures.accepting (Str (lit "b1"))) B2Bucket.new []
              (Fixtures.key_for (Str (lit "b1"))) eq_refl eq_refl
              ltac:(discriminate))
    as (_ & Hfinal & _).
  unfold Fixtures.authorized_facade. rewrite Hfinal. reflexivity.
Defined.

(* ------------------------------------------------------------------ *)
(** ** Known values *)
(* ------------------------------------------------------------------ *)

Example sha1_empty :
  sha1 (OfBuffer []) = lit "da39a3ee5e6b4b0d3255bfef95601890afd80709".
Proof. vm_compute. reflexivity. Qed.

Example sha1_abc :
  sha1 (OfString (lit "abc")) = lit "a9993e364706816aba3e25717850c26c9cd0d89d".
Proof. vm_compute. reflexivity. Qed.

Example sha1_two_blocks :
  sha1 (OfString
          (lit "abcdbcdecdefdefgefghfghighijhijkijkljklmklmnlmnomnopnopq"))
  = lit "84983e441c3bd26ebaae4aa1f95129e5e54670f1".
Proof. vm_compute. reflexivity. Qed.

Example base64_credentials :
  base64 (utf8_bytes (lit "user:pass")) = lit "dXNlcjpwYXNz"
  /\ base64 (utf8_bytes (lit "a")) = lit "YQ=="
  /\ base64 (utf8_bytes (lit "ab")) = lit "YWI=".
Proof. vm_compute. repeat split. Qed.

Example encode_unpaired_surrogate :
  getUrlEncodedFilename (lit "a/" ++ [55296]) = Throw URIError.
Proof. vm_compute. reflexivity. Qed.

Example encode_keeps_empty_segments :
  getUrlEncodedFilename (lit "/a//b/") = Ok (lit "/a//b/").
Proof. vm_compute. reflexivity. Qed.

Example decode_rejects_overlong :
  decodeURIComponent (lit "%C0%AF") = Throw URIError.
Proof. vm_compute. reflexivity. Qed.

Example uploadFile_hash_kept :
  map (sent_header (lit "X-Bz-Content-Sha1"))
      (issued (B2.uploadFile
                 (Fixtures.file (lit "a.txt") [] (Some (lit "abc123"))))
              (Fixtures.accepting Null) B2.new [])
  = [Some (HStr (lit "abc123"))].
Proof. vm_compute. reflexivity. Qed.

Example uploadFile_unencodable_name_sends_nothing :
  B2.uploadFile (Fixtures.file [56320] [] None) (Fixtures.accepting Null)
                B2.new []
  = (Throw URIError, B2.new, []).
Proof. vm_compute. reflexivity. Qed.

Example uploadPart_number_unchecked :
  map (sent_header (lit "X-Bz-Part-Number"))
      (issued (B2.uploadPart (Fixtures.part 10001%float []))
              (Fixtures.accepting Null) B2.new [])
  = [Some (HNum 10001%float)]
  /\ map (sent_header (lit "X-Bz-Part-Number"))
         (issued (B2.uploadPart (Fixtures.part 0%float []))
                 (Fixtures.accepting Null) B2.new [])
     = [Some (HNum 0%float)]
  /\ map (sent_header (lit "X-Bz-Part-Number"))
         (issued (B2.uploadPart (Fixtures.part PrimFloat.nan []))
                 (Fixtures.accepting Null) B2.new [])
     = [Some (HNum PrimFloat.nan)].
Proof. vm_compute. repeat split. Qed.

Example download_authorization_unclamped :
  map (body_prop (lit "validDurationInSeconds"))
      (issued (B2.getDownloadAuthorization
                 [(lit "bucketId", VStr (lit "b1"));
                  (lit "fileNamePrefix", VStr (lit "pets/"));
                  (lit "validDurationInSeconds", VNum 604801%float)])
              (Fixtures.accepting Null)
              (final (B2.authorize (lit "acct") (lit "key")
                                   (Fixtures.accepting Null) B2.new []))
              [])
  = [VNum 604801%float].
Proof. vm_compute. reflexivity. Qed.
